(** * libbitcoin-network: script codec, signature hash, channel proxy and
      p2p manager.

    A shallow embedding of the three translation units of the repository:
    - [script.hpp]  (declarations of the script engine),
    - [proxy.cpp]   (the framed channel proxy),
    - [p2p.cpp]     (the peer session manager).

    Bytes are [Byte.byte], unsigned machine integers are [N], the members of
    a class are the fields of a record and every member function is a
    function from the record to the record.  What a member function does to
    its collaborators (socket, subscribers, thread pool, host store) is
    appended to a trace of events kept in the record. *)

From Stdlib Require Import List NArith Arith Bool Lia.
From Stdlib Require Import Strings.Byte.
From Equations Require Import Equations.
Import ListNotations.

(* ===================================================================== *)
(** ** Error codes ([bc::error], as used by the three units)              *)
(* ===================================================================== *)

(** [code] is the library's error code.  [transport n] stands for the codes
    mapped from the socket layer and [parse_failure n] for the codes a
    message parser reports. *)
Inductive code : Type :=
| success
| operation_failed
| service_stopped
| channel_stopped
| bad_stream
| address_in_use
| file_system
| transport (n : nat)
| parse_failure (n : nat).

(** The conversion of a [code] to [bool] in C++: true for an error. *)
Definition is_error (ec : code) : bool :=
  match ec with
  | success => false
  | _ => true
  end.

(* ===================================================================== *)
(** ** Script engine (script.hpp)                                         *)
(* ===================================================================== *)

Module Script.

Definition data_chunk := list byte.
Definition hash_digest := list byte.

(** [enum class opcode].  The last two enumerators carry no initialiser and
    follow [checksig = 172]. *)
Inductive opcode : Type :=
| raw_data | special | pushdata1 | pushdata2 | pushdata4
| op_1 | op_2 | op_3 | op_4 | op_5 | op_6 | op_7 | op_8
| op_9 | op_10 | op_11 | op_12 | op_13 | op_14 | op_15 | op_16
| nop | drop | dup | sha256 | hash160 | equal | equalverify | checksig
| codeseparator | bad_operation.

(** The enumerator values of the header. *)
Definition opcode_value (c : opcode) : N :=
  match c with
  | raw_data => 0 | special => 1
  | pushdata1 => 76 | pushdata2 => 77 | pushdata4 => 78
  | op_1 => 81 | op_2 => 82 | op_3 => 83 | op_4 => 84
  | op_5 => 85 | op_6 => 86 | op_7 => 87 | op_8 => 88
  | op_9 => 89 | op_10 => 90 | op_11 => 91 | op_12 => 92
  | op_13 => 93 | op_14 => 94 | op_15 => 95 | op_16 => 96
  | nop => 97 | drop => 117 | dup => 118
  | sha256 => 168 | hash160 => 169
  | equal => 135 | equalverify => 136
  | checksig => 172 | codeseparator => 173 | bad_operation => 174
  end%N.

Definition opcode_eqb (a b : opcode) : bool :=
  N.eqb (opcode_value a) (opcode_value b).

(** [struct operation]. *)
Record operation : Type := mk_operation {
  op_code : opcode;
  op_data : data_chunk
}.

Definition operation_stack := list operation.

(** [namespace sighash]. *)
Module sighash.

Definition all : N := 1.
Definition none : N := 2.
Definition single : N := 3.
Definition anyone_can_pay : N := 128.

End sighash.

(** [enum class payment_type]. *)
Inductive payment_type : Type :=
| pubkey | pubkey_hash | script_hash | multisig | non_standard.

(** [class script]: the operations and the evaluation stack. *)
Record script : Type := mk_script {
  operations : operation_stack;
  stack_ : list data_chunk
}.

(** [script::push_operation]. *)
Definition push_operation (oper : operation) (s : script) : script :=
  {| operations := operations s ++ [oper]; stack_ := stack_ s |}.

(** A default-constructed script. *)
Definition empty_script : script := {| operations := []; stack_ := [] |}.

Definition script_of (ops : operation_stack) : script :=
  {| operations := ops; stack_ := [] |}.

(* --------------------------------------------------------------------- *)
(** *** Bytes and little-endian integers                                  *)
(* --------------------------------------------------------------------- *)

(** The low eight bits of [n] as a byte. *)
Definition byte_of_N (n : N) : byte :=
  match Byte.of_N (n mod 256) with
  | Some b => b
  | None => x00
  end.

(** Little-endian value of a byte string. *)
Fixpoint le_N (bs : list byte) : N :=
  match bs with
  | [] => 0
  | b :: rest => Byte.to_N b + 256 * le_N rest
  end.

(** The [width] low bytes of [n], least significant first. *)
Fixpoint le_bytes (width : nat) (n : N) : list byte :=
  match width with
  | O => []
  | S w => byte_of_N n :: le_bytes w (n / 256)
  end.

(* --------------------------------------------------------------------- *)
(** *** Script codec: [parse_script] and [save_script]                    *)
(* --------------------------------------------------------------------- *)

(** The opcodes whose operation carries a payload. *)
Definition is_push (c : opcode) : bool :=
  match c with
  | raw_data | pushdata1 | pushdata2 | pushdata4 => true
  | _ => false
  end.

(** The enumerator with value [n], [bad_operation] when there is none.
    Only bytes above [0x4E] reach this function in [parse_operation]. *)
Definition opcode_of_N (n : N) : opcode :=
  match n with
  | 81 => op_1 | 82 => op_2 | 83 => op_3 | 84 => op_4
  | 85 => op_5 | 86 => op_6 | 87 => op_7 | 88 => op_8
  | 89 => op_9 | 90 => op_10 | 91 => op_11 | 92 => op_12
  | 93 => op_13 | 94 => op_14 | 95 => op_15 | 96 => op_16
  | 97 => nop | 117 => drop | 118 => dup
  | 168 => sha256 | 169 => hash160
  | 135 => equal | 136 => equalverify
  | 172 => checksig | 173 => codeseparator
  | _ => bad_operation
  end%N.

(** A push whose length field is [width] bytes wide: read the length, then
    that many payload bytes.  Returns the operation and the unread rest. *)
Definition read_sized_push (tag : opcode) (width : nat) (rest : list byte)
  : operation * list byte :=
  let len := N.to_nat (le_N (firstn width rest)) in
  let body := skipn width rest in
  ({| op_code := tag; op_data := firstn len body |}, skipn len body).

(** Modelled from the spec: the body of [parse_script] (declared in
    script.hpp) is not among the sources.  One decoding step, after section
    4.1 "Parse": [0x00] pushes the empty payload, [0x01..0x4B] push the next
    N bytes tagged [raw_data], [0x4C], [0x4D] and [0x4E] read a length of 1,
    2 and 4 little-endian bytes and push that many bytes tagged
    [pushdata1], [pushdata2] and [pushdata4], every other byte is the
    enumerator of that value or [bad_operation].  The spec does not say
    what happens when the input ends inside a length or a payload; here the
    bytes that are left are taken. *)
Definition parse_operation (b : byte) (rest : list byte)
  : operation * list byte :=
  let n := Byte.to_N b in
  if (n <=? 75)%N then
    ({| op_code := raw_data; op_data := firstn (N.to_nat n) rest |},
     skipn (N.to_nat n) rest)
  else if (n =? 76)%N then read_sized_push pushdata1 1 rest
  else if (n =? 77)%N then read_sized_push pushdata2 2 rest
  else if (n =? 78)%N then read_sized_push pushdata4 4 rest
  else ({| op_code := opcode_of_N n; op_data := [] |}, rest).

(** Modelled from the spec: the operation sequence of a raw script, one
    [parse_operation] after the other until the bytes are used up. *)
Equations? parse_operations (raw_script : list byte) : operation_stack
  by wf (length raw_script) lt :=
  parse_operations [] := [];
  parse_operations (b :: rest) :=
    fst (parse_operation b rest)
      :: parse_operations (snd (parse_operation b rest)).
Proof.
  unfold parse_operation, read_sized_push.
  repeat match goal with |- context [if ?c then _ else _] => destruct c end;
    cbv zeta; cbn [snd]; rewrite ?length_skipn; simpl; lia.
Qed.

(** Modelled from the spec: [parse_script] (declared in script.hpp, body
    not among the sources) returns a script holding the parsed operations
    and a fresh evaluation stack. *)
Definition parse_script (raw_script : data_chunk) : script :=
  script_of (parse_operations raw_script).

(** The header bytes of the smallest push encoding that fits a payload of
    [n] bytes: the length itself up to 75, else [0x4C], [0x4D] or [0x4E]
    followed by the length in 1, 2 or 4 little-endian bytes. *)
Definition push_header (n : N) : list byte :=
  if (n <=? 75)%N then [byte_of_N n]
  else if (n <=? 255)%N then x4c :: le_bytes 1 n
  else if (n <=? 65535)%N then x4d :: le_bytes 2 n
  else x4e :: le_bytes 4 n.

(** Modelled from the spec: one operation of [save_script].  A push is
    written with the smallest encoding that fits its payload, any other
    operation as the byte of its enumerator (it has no payload). *)
Definition save_operation (op : operation) : list byte :=
  if is_push (op_code op)
  then push_header (N.of_nat (length (op_data op))) ++ op_data op
  else [byte_of_N (opcode_value (op_code op))].

(** Modelled from the spec: [save_script] (declared in script.hpp, body not
    among the sources), section 4.1 "Serialize": the inverse of parse,
    choosing the smallest push encoding that fits the payload size. *)
Definition save_script (scr : script) : data_chunk :=
  flat_map save_operation (operations scr).

(** The tag [parse_operation] gives to the smallest encoding of a payload
    of [n] bytes. *)
Definition smallest_push (n : N) : opcode :=
  if (n <=? 75)%N then raw_data
  else if (n <=? 255)%N then pushdata1
  else if (n <=? 65535)%N then pushdata2
  else pushdata4.

(** A well-formed operation: a push is tagged with the smallest encoding
    that fits its payload and the payload's size fits the four-byte length
    field; any other operation has no payload and is an opcode of the wire
    format ([special] is a sentinel without a byte of its own). *)
Definition well_formed_operation (op : operation) : bool :=
  if is_push (op_code op)
  then opcode_eqb (op_code op) (smallest_push (N.of_nat (length (op_data op))))
       && (N.of_nat (length (op_data op)) <? 4294967296)%N
  else match op_data op with [] => true | _ => false end
       && negb (opcode_eqb (op_code op) special).

Definition well_formed (scr : script) : bool :=
  forallb well_formed_operation (operations scr).

(* --------------------------------------------------------------------- *)
(** *** Signature hash: [script::generate_signature_hash]                 *)
(* --------------------------------------------------------------------- *)

(** [message::transaction] is only forward-declared in script.hpp; the
    records follow the Bitcoin wire format the spec refers to. *)
Record output_point : Type := mk_output_point {
  point_hash : hash_digest;
  point_index : N
}.

Record transaction_input : Type := mk_input {
  previous_output : output_point;
  input_script : operation_stack;
  sequence : N
}.

Record transaction_output : Type := mk_output {
  value : N;
  output_script : operation_stack
}.

Record transaction : Type := mk_transaction {
  version : N;
  locktime : N;
  inputs : list transaction_input;
  outputs : list transaction_output
}.

(** The primitives the spec puts out of scope and treats as pure
    functions: SHA-256 and the canonical transaction serializer. *)
Class primitives : Type := {
  sha256_hash : data_chunk -> hash_digest;
  transaction_to_data : transaction -> data_chunk
}.

(** The 32-byte value whose last byte is 1 and whose other bytes are 0. *)
Definition one_hash : hash_digest := repeat x00 31 ++ [x01].

(** Apply [f] to every element of a list together with its position. *)
Fixpoint map_indexed {A B : Type} (f : nat -> A -> B) (from : nat)
  (l : list A) : list B :=
  match l with
  | [] => []
  | x :: rest => f from x :: map_indexed f (S from) rest
  end.

Definition remove_codeseparators (ops : operation_stack) : operation_stack :=
  filter (fun op => negb (opcode_eqb (op_code op) codeseparator)) ops.

(** Step 1: every input script of the copy is cleared, input [i] gets the
    script code without its [codeseparator] operations. *)
Definition blank_input_scripts (i : nat) (script_code : operation_stack)
  (ins : list transaction_input) : list transaction_input :=
  map_indexed
    (fun k inp =>
       {| previous_output := previous_output inp;
          input_script := if Nat.eqb k i
                          then remove_codeseparators script_code else [];
          sequence := sequence inp |})
    0 ins.

(** "Set every other input's sequence number to 0." *)
Definition zero_other_sequences (i : nat) (ins : list transaction_input)
  : list transaction_input :=
  map_indexed
    (fun k inp =>
       if Nat.eqb k i then inp
       else {| previous_output := previous_output inp;
               input_script := input_script inp;
               sequence := 0 |})
    0 ins.

(** The blank output of [single]: value 2^64 - 1 and an empty script. *)
Definition blank_output : transaction_output :=
  {| value := 18446744073709551615; output_script := [] |}.

(** "Truncate outputs to i+1, blank outputs 0..i-1." *)
Definition single_outputs (i : nat) (outs : list transaction_output)
  : list transaction_output :=
  map_indexed (fun k out => if Nat.ltb k i then blank_output else out)
    0 (firstn (S i) outs).

Definition with_inputs (tx : transaction) (ins : list transaction_input)
  : transaction :=
  {| version := version tx; locktime := locktime tx;
     inputs := ins; outputs := outputs tx |}.

Definition with_outputs (tx : transaction) (outs : list transaction_output)
  : transaction :=
  {| version := version tx; locktime := locktime tx;
     inputs := inputs tx; outputs := outs |}.

(** Step 3: with [anyone_can_pay] only input [i] is kept. *)
Definition anyone_can_pay_inputs (hash_type : N) (i : nat)
  (tx : transaction) : transaction :=
  if (N.land hash_type sighash.anyone_can_pay =? 0)%N then tx
  else with_inputs tx
         (match nth_error (inputs tx) i with
          | Some inp => [inp]
          | None => []
          end).

(** Step 4: the serialized transaction, the four little-endian bytes of
    [hash_type], hashed twice. *)
Definition final_hash `{primitives} (hash_type : N) (tx : transaction)
  : hash_digest :=
  sha256_hash (sha256_hash (transaction_to_data tx ++ le_bytes 4 hash_type)).

(** Modelled from the spec: the body of [script::generate_signature_hash]
    (declared in script.hpp, lines 90-92) is not among the sources.  The
    four steps of section 4.1 "Signature hash algorithm"; a [hash_type]
    whose low five bits name no mode changes nothing in step 2. *)
Definition generate_signature_hash `{primitives} (parent_tx : transaction)
  (input_index : N) (script_code : script) (hash_type : N) : hash_digest :=
  let i := N.to_nat input_index in
  let tx1 :=
    with_inputs parent_tx
      (blank_input_scripts i (operations script_code) (inputs parent_tx)) in
  let mode := N.land hash_type 31 in
  if (mode =? sighash.single)%N then
    if (N.of_nat (length (outputs parent_tx)) <=? input_index)%N
    then one_hash
    else
      let tx2 :=
        with_inputs (with_outputs tx1 (single_outputs i (outputs tx1)))
          (zero_other_sequences i (inputs tx1)) in
      final_hash hash_type (anyone_can_pay_inputs hash_type i tx2)
  else if (mode =? sighash.none)%N then
    let tx2 :=
      with_inputs (with_outputs tx1 []) (zero_other_sequences i (inputs tx1)) in
    final_hash hash_type (anyone_can_pay_inputs hash_type i tx2)
  else final_hash hash_type (anyone_can_pay_inputs hash_type i tx1).

(* --------------------------------------------------------------------- *)
(** *** Sample data                                                       *)
(* --------------------------------------------------------------------- *)

Definition push (tag : opcode) (payload : data_chunk) : operation :=
  {| op_code := tag; op_data := payload |}.

Definition plain (c : opcode) : operation :=
  {| op_code := c; op_data := [] |}.

(** A pay-to-pubkey-hash output script followed by an 80-byte push. *)
Definition sample_script : script :=
  script_of
    [plain dup; plain hash160; push raw_data (repeat x11 20);
     plain equalverify; plain checksig;
     push pushdata1 (repeat x2a 80)].

(** The bytes of [sample_script] on the wire. *)
Definition sample_raw_script : data_chunk :=
  [x76; xa9; x14] ++ repeat x11 20 ++ [x88; xac]
  ++ [x4c; x50] ++ repeat x2a 80.

(** A transaction with one input and one output. *)
Definition sample_transaction : transaction :=
  {| version := 1; locktime := 0;
     inputs := [ {| previous_output :=
                      {| point_hash := repeat x00 32; point_index := 0 |};
                    input_script := [];
                    sequence := 4294967295 |} ];
     outputs := [ {| value := 5000000000;
                     output_script := operations sample_script |} ] |}.

(** Stand-ins for the primitives where a theorem is evaluated on
    [sample_transaction]. *)
Definition sample_primitives : primitives :=
  {| sha256_hash := fun bytes => firstn 32 (bytes ++ repeat x00 32);
     transaction_to_data :=
       fun tx => le_bytes 4 (version tx) ++ le_bytes 4 (locktime tx) |}.

End Script.

(* ===================================================================== *)
(** ** Channel proxy (proxy.cpp)                                          *)
(* ===================================================================== *)

Module Proxy.

(** [boost_code]: the error code of the socket layer, 0 for success. *)
Definition boost_code := nat.

Definition boost_failed (ec : boost_code) : bool := negb (Nat.eqb ec 0).

(** [message::heading], the parsed 24-byte frame prefix. *)
Record heading : Type := mk_heading {
  magic : N;
  command : list byte;
  payload_size : N;
  checksum : N
}.

(** [static constexpr size_t max_payload_size = 10 * 1024 * 1024]. *)
Definition max_payload_size : N := 10 * 1024 * 1024.

Inductive log_level : Type := debug | warning.

(** What the proxy does to its collaborators, in program order. *)
Inductive event : Type :=
| stop_subscriber_start
| message_subscriber_start
| message_subscriber_stop
| message_subscriber_broadcast (ec : code)
| message_subscriber_load (head : heading) (payload : list byte)
| stop_subscriber_stop
| stop_subscriber_relay (ec : code)
| stop_subscriber_subscribe
| stopping
| activity
| socket_shutdown
| socket_cancel
| async_read_heading
| async_read_payload (size : N)
| async_write (message : list byte)
| log (level : log_level)
| handler_invoked (ec : code).

(** The data members of [class proxy] that proxy.cpp reads and writes,
    and the trace of events. *)
Record proxy : Type := mk_proxy {
  stopped_ : bool;
  magic_ : N;
  heading_buffer_ : list byte;
  payload_buffer_ : list byte;
  trace : list event
}.

(** [result_handler]: a callback may itself call into the proxy, so it is
    a function on the proxy's state. *)
Definition result_handler := code -> proxy -> proxy.

(** The code outside proxy.cpp that its functions call. *)
Class collaborators : Type := {
  (** [error::boost_to_error_code]. *)
  boost_to_error_code : boost_code -> code;
  (** [heading::from_data] on the heading buffer, [None] when it returns
      false. *)
  heading_from_data : list byte -> option heading;
  (** [bitcoin_checksum]. *)
  bitcoin_checksum : list byte -> N;
  (** [message_subscriber::load]: the parse result for a command and a
      payload, and whether bytes were left in the stream. *)
  load_result : heading -> list byte -> code * bool;
  (** What a message subscriber does to the channel while the payload is
      loaded: the code it stops the channel with, if it stops it. *)
  load_stops : heading -> list byte -> option code
}.

Definition set_stopped (b : bool) (st : proxy) : proxy :=
  {| stopped_ := b; magic_ := magic_ st;
     heading_buffer_ := heading_buffer_ st;
     payload_buffer_ := payload_buffer_ st;
     trace := trace st |}.

Definition set_heading_buffer (bytes : list byte) (st : proxy) : proxy :=
  {| stopped_ := stopped_ st; magic_ := magic_ st;
     heading_buffer_ := bytes;
     payload_buffer_ := payload_buffer_ st;
     trace := trace st |}.

Definition set_payload_buffer (bytes : list byte) (st : proxy) : proxy :=
  {| stopped_ := stopped_ st; magic_ := magic_ st;
     heading_buffer_ := heading_buffer_ st;
     payload_buffer_ := bytes;
     trace := trace st |}.

Definition emit (e : event) (st : proxy) : proxy :=
  {| stopped_ := stopped_ st; magic_ := magic_ st;
     heading_buffer_ := heading_buffer_ st;
     payload_buffer_ := payload_buffer_ st;
     trace := trace st ++ [e] |}.

(** [std::vector::resize]. *)
Definition resize (n : nat) (buffer : list byte) : list byte :=
  firstn n buffer ++ repeat x00 (n - length buffer).

(** [proxy::proxy]: a proxy is constructed stopped. *)
Definition create (magic : N) : proxy :=
  {| stopped_ := true; magic_ := magic;
     heading_buffer_ := repeat x00 24;
     payload_buffer_ := [];
     trace := [] |}.

(** [proxy::close]. *)
Definition close (st : proxy) : proxy :=
  emit socket_cancel (emit socket_shutdown st).

(** [proxy::stopped]. *)
Definition stopped (st : proxy) : bool := stopped_ st.

(** [proxy::read_heading].  The lock serialises socket use between
    threads and is not part of this sequential model. *)
Definition read_heading (st : proxy) : proxy :=
  if stopped st then st else emit async_read_heading st.

(** [proxy::start]. *)
Definition start (handler : result_handler) (st : proxy) : proxy :=
  if negb (stopped st) then handler operation_failed st
  else
    let st := set_stopped false st in
    let st := emit stop_subscriber_start st in
    let st := emit message_subscriber_start st in
    let st := handler success st in
    read_heading st.

(** [proxy::stop(const code&)].  The assertion that [ec] is an error code
    is compiled out of release builds; it is the precondition of the
    theorems about [stop]. *)
Definition stop (ec : code) (st : proxy) : proxy :=
  if stopped st then st
  else
    let st := set_stopped true st in
    let st := emit message_subscriber_stop st in
    let st := emit (message_subscriber_broadcast channel_stopped) st in
    let st := emit stop_subscriber_stop st in
    let st := emit (stop_subscriber_relay ec) st in
    let st := emit stopping st in
    close st.

(** [proxy::stop(const boost_code&)]. *)
Definition stop_boost `{collaborators} (ec : boost_code) (st : proxy)
  : proxy :=
  stop (boost_to_error_code ec) st.

(** [proxy::subscribe_stop]. *)
Definition subscribe_stop (st : proxy) : proxy :=
  emit stop_subscriber_subscribe st.

(** [proxy::read_payload]. *)
Definition read_payload (head : heading) (st : proxy) : proxy :=
  if stopped st then st
  else
    let st :=
      set_payload_buffer
        (resize (N.to_nat (payload_size head)) (payload_buffer_ st)) st in
    emit (async_read_payload (payload_size head)) st.

(** [proxy::handle_read_heading]. *)
Definition handle_read_heading `{collaborators} (ec : boost_code)
  (st : proxy) : proxy :=
  if stopped st then st
  else if boost_failed ec then stop_boost ec (emit (log debug) st)
  else
    match heading_from_data (heading_buffer_ st) with
    | None => stop bad_stream (emit (log warning) st)
    | Some head =>
        if negb (magic head =? magic_ st)%N
        then stop bad_stream (emit (log warning) st)
        else if (max_payload_size <? payload_size head)%N
        then stop bad_stream (emit (log warning) st)
        else emit activity (read_payload head st)
    end.

(** [proxy::handle_read_payload].  A message subscriber may stop the
    channel while the payload is loaded, which is what the second test of
    [stopped] is for.  After a parse error the function calls [stop] and,
    without returning, goes on to [handle_activity] and [read_heading]. *)
Definition handle_read_payload `{collaborators} (ec : boost_code)
  (head : heading) (st : proxy) : proxy :=
  if stopped st then st
  else if negb (checksum head =? bitcoin_checksum (payload_buffer_ st))%N
  then stop bad_stream (emit (log warning) st)
  else
    let parse_error := fst (load_result head (payload_buffer_ st)) in
    let unconsumed := snd (load_result head (payload_buffer_ st)) in
    let stopping := load_stops head (payload_buffer_ st) in
    let st := emit (message_subscriber_load head (payload_buffer_ st)) st in
    let st :=
      match stopping with
      | Some reason => stop reason st
      | None => st
      end in
    if stopped st then st
    else
      let st :=
        if negb (is_error parse_error)
        then emit (log (if unconsumed then warning else debug)) st
        else st in
      if boost_failed ec then stop_boost ec (emit (log warning) st)
      else
        let st :=
          if is_error parse_error
          then stop parse_error (emit (log warning) st)
          else st in
        read_heading (emit activity st).

(** [proxy::do_send]. *)
Definition do_send (message : list byte) (handler : result_handler)
  (command : list byte) (st : proxy) : proxy :=
  if stopped st then handler channel_stopped st
  else emit (async_write message) (emit (log debug) st).

(** [proxy::handle_send]. *)
Definition handle_send `{collaborators} (ec : boost_code)
  (handler : result_handler) (st : proxy) : proxy :=
  let error := boost_to_error_code ec in
  let st := if is_error error then emit (log debug) st else st in
  handler error st.

(** A handler that does nothing but note that it ran. *)
Definition recording_handler : result_handler :=
  fun ec st => emit (handler_invoked ec) st.

(** The calls a stopped channel can still receive: sends, the completion
    handlers of reads and writes that were outstanding (a completed read
    has filled its buffer), further stops and re-entries of the read
    cycle. *)
Inductive call : Type :=
| call_do_send (message command : list byte)
| call_handle_send (ec : boost_code)
| call_read_heading
| call_handle_read_heading (ec : boost_code) (received : list byte)
| call_read_payload (head : heading)
| call_handle_read_payload (ec : boost_code) (head : heading)
    (received : list byte)
| call_stop (ec : code)
| call_subscribe_stop.

Definition perform `{collaborators} (c : call) (st : proxy) : proxy :=
  match c with
  | call_do_send message command =>
      do_send message recording_handler command st
  | call_handle_send ec => handle_send ec recording_handler st
  | call_read_heading => read_heading st
  | call_handle_read_heading ec received =>
      handle_read_heading ec (set_heading_buffer received st)
  | call_read_payload head => read_payload head st
  | call_handle_read_payload ec head received =>
      handle_read_payload ec head (set_payload_buffer received st)
  | call_stop ec => stop ec st
  | call_subscribe_stop => subscribe_stop st
  end.

Definition perform_all `{collaborators} (calls : list call) (st : proxy)
  : proxy :=
  fold_left (fun s c => perform c s) calls st.

(** Events that deliver a message to the message subscribers. *)
Definition is_delivery (e : event) : bool :=
  match e with
  | message_subscriber_load _ _ => true
  | _ => false
  end.

(** Events that hand bytes to the socket. *)
Definition is_write (e : event) : bool :=
  match e with
  | async_write _ => true
  | _ => false
  end.

(** Events that start a socket read. *)
Definition is_read (e : event) : bool :=
  match e with
  | async_read_heading | async_read_payload _ => true
  | _ => false
  end.

Definition is_payload_read (e : event) : bool :=
  match e with
  | async_read_payload _ => true
  | _ => false
  end.

Definition count (p : event -> bool) (st : proxy) : nat :=
  length (filter p (trace st)).

(** The events [stop] appends on a running proxy, for the stop code [ec]. *)
Definition stop_events (ec : code) : list event :=
  [ message_subscriber_stop; message_subscriber_broadcast channel_stopped;
    stop_subscriber_stop; stop_subscriber_relay ec;
    stopping; socket_shutdown; socket_cancel ].

(** The heading layout of the wire protocol (section 6 of the spec):
    magic, command, payload size and checksum in 4, 12, 4 and 4 bytes,
    integers little-endian.  [heading::from_data] itself is not among the
    sources; this decoder instantiates it where the theorems are
    evaluated. *)
Definition wire_heading (bytes : list byte) : option heading :=
  if Nat.eqb (length bytes) 24
  then Some {| magic := Script.le_N (firstn 4 bytes);
               command := firstn 12 (skipn 4 bytes);
               payload_size := Script.le_N (firstn 4 (skipn 16 bytes));
               checksum := Script.le_N (firstn 4 (skipn 20 bytes)) |}
  else None.

(** Collaborators for evaluation: socket codes map to [transport], the
    checksum is the little-endian value of the first four payload bytes
    and a payload parses when it is eight bytes long (a ping nonce). *)
Definition sample_collaborators : collaborators :=
  {| boost_to_error_code :=
       fun ec => match ec with O => success | S n => transport n end;
     heading_from_data := wire_heading;
     bitcoin_checksum := fun payload => Script.le_N (firstn 4 payload);
     load_result :=
       fun _ payload =>
         (if Nat.eqb (length payload) 8 then success else bad_stream,
          false);
     load_stops := fun _ _ => None |}.

(** The same collaborators, with a message subscriber that stops the
    channel with [channel_stopped] as soon as a payload is loaded. *)
Definition stopping_subscriber : collaborators :=
  {| boost_to_error_code :=
       fun ec => match ec with O => success | S n => transport n end;
     heading_from_data := wire_heading;
     bitcoin_checksum := fun payload => Script.le_N (firstn 4 payload);
     load_result :=
       fun _ payload =>
         (if Nat.eqb (length payload) 8 then success else bad_stream,
          false);
     load_stops := fun _ _ => Some channel_stopped |}.

(** The main network magic. *)
Definition sample_magic : N := 3652501241.

(** "ping", null-padded to twelve bytes. *)
Definition ping_command : list byte :=
  [x70; x69; x6e; x67; x00; x00; x00; x00; x00; x00; x00; x00].

(** A started channel. *)
Definition sample_running : proxy :=
  start recording_handler (create sample_magic).

(** Headings as they arrive on the wire: a ping heading announcing
    [max_payload_size + 1] bytes, one announcing exactly
    [max_payload_size] bytes, and one with a foreign magic. *)
Definition oversized_heading : list byte :=
  [xf9; xbe; xb4; xd9] ++ ping_command
  ++ [x01; x00; xa0; x00] ++ [x00; x00; x00; x00].

Definition largest_heading : list byte :=
  [xf9; xbe; xb4; xd9] ++ ping_command
  ++ [x00; x00; xa0; x00] ++ [x00; x00; x00; x00].

Definition foreign_heading : list byte :=
  [x0b; x11; x09; x07] ++ ping_command
  ++ [x08; x00; x00; x00] ++ [x00; x00; x00; x00].

(** A parsed ping heading with checksum 1, and payloads for it. *)
Definition ping_heading : heading :=
  {| magic := sample_magic; command := ping_command;
     payload_size := 8; checksum := 1 |}.

Definition corrupt_payload : list byte :=
  [x02; x00; x00; x00; x00; x00; x00; x00].

Definition short_payload : list byte := [x01; x00; x00; x00].

(* --------------------------------------------------------------------- *)
(** *** The read cycle and the life of a proxy                            *)
(* --------------------------------------------------------------------- *)

(** What [handle_read_heading] requires of a completed heading read to go
    on to the payload: no transport error, a heading that parses, the
    channel's magic and a payload size within the guard. *)
Definition heading_accepted `{collaborators} (ec : boost_code) (st : proxy)
  : bool :=
  negb (boost_failed ec)
  && match heading_from_data (heading_buffer_ st) with
     | Some head =>
         (magic head =? magic_ st)%N
         && (payload_size head <=? max_payload_size)%N
     | None => false
     end.

(** A frame as the socket hands it over: the 24 bytes of the heading read
    and the bytes of the payload read. *)
Record frame : Type := mk_frame {
  frame_heading : list byte;
  frame_payload : list byte
}.

(** The arrival of one frame with both reads succeeding: the heading read
    completes with the heading in the heading buffer, and the payload read
    that [read_payload] bound to the parsed heading completes with the
    payload in the payload buffer. *)
Definition receive `{collaborators} (f : frame) (st : proxy) : proxy :=
  let st := handle_read_heading 0 (set_heading_buffer (frame_heading f) st) in
  match heading_from_data (frame_heading f) with
  | Some head =>
      handle_read_payload 0 head (set_payload_buffer (frame_payload f) st)
  | None => st
  end.

Definition receive_all `{collaborators} (frames : list frame) (st : proxy)
  : proxy :=
  fold_left (fun s f => receive f s) frames st.

(** A frame the channel with magic [channel_magic] takes without
    stopping: the heading parses, bears the magic, announces a size within
    the guard which is the size of the payload, the checksum is that of
    the payload and the payload parses. *)
Definition valid_frame `{collaborators} (channel_magic : N) (f : frame)
  : bool :=
  match heading_from_data (frame_heading f) with
  | Some head =>
      (magic head =? channel_magic)%N
      && (payload_size head <=? max_payload_size)%N
      && (N.of_nat (length (frame_payload f)) =? payload_size head)%N
      && (checksum head =? bitcoin_checksum (frame_payload f))%N
      && negb (is_error (fst (load_result head (frame_payload f))))
  | None => false
  end.

(** No message subscriber stops the channel while the payload of the
    frame is loaded. *)
Definition quiet_load `{collaborators} (f : frame) : bool :=
  match heading_from_data (frame_heading f) with
  | Some head =>
      match load_stops head (frame_payload f) with
      | Some _ => false
      | None => true
      end
  | None => true
  end.

(** The load of a frame's payload for the message subscribers. *)
Definition frame_load `{collaborators} (f : frame) : list event :=
  match heading_from_data (frame_heading f) with
  | Some head => [message_subscriber_load head (frame_payload f)]
  | None => []
  end.

(** The calls a proxy receives over its life: [start], and those of
    [call]. *)
Inductive life_call : Type :=
| life_start
| life_other (c : call).

Definition life_perform `{collaborators} (c : life_call) (st : proxy)
  : proxy :=
  match c with
  | life_start => start recording_handler st
  | life_other c' => perform c' st
  end.

Definition life_perform_all `{collaborators} (calls : list life_call)
  (st : proxy) : proxy :=
  fold_left (fun s c => life_perform c s) calls st.

(** Socket reads, socket writes and loads for the message subscribers. *)
Definition is_io (e : event) : bool :=
  is_read e || is_write e || is_delivery e.

(** Reads a trace from left to right.  [message_subscriber_start] (in
    [start]) opens a period of activity and [message_subscriber_stop] (in
    [stop]) ends it; the result is [None] when a period is opened twice or
    ended twice in a row, or when a read, a write or a load lies outside a
    period, and otherwise tells whether a period is open at the end. *)
Fixpoint active_periods (open : bool) (events : list event) : option bool :=
  match events with
  | [] => Some open
  | e :: rest =>
      match e with
      | message_subscriber_start =>
          if open then None else active_periods true rest
      | message_subscriber_stop =>
          if open then active_periods false rest else None
      | _ =>
          if is_io e && negb open then None else active_periods open rest
      end
  end.

(** The codes the recorded handlers were invoked with, in order. *)
Fixpoint reported (events : list event) : list code :=
  match events with
  | [] => []
  | handler_invoked ec :: rest => ec :: reported rest
  | _ :: rest => reported rest
  end.

(** Two ping frames with nonces 1 and 2. *)
Definition ping_frames : list frame :=
  [ {| frame_heading :=
         [xf9; xbe; xb4; xd9] ++ ping_command
         ++ [x08; x00; x00; x00] ++ [x01; x00; x00; x00];
       frame_payload := [x01; x00; x00; x00; x00; x00; x00; x00] |};
    {| frame_heading :=
         [xf9; xbe; xb4; xd9] ++ ping_command
         ++ [x08; x00; x00; x00] ++ [x02; x00; x00; x00];
       frame_payload := [x02; x00; x00; x00; x00; x00; x00; x00] |} ].

End Proxy.

(* ===================================================================== *)
(** ** Peer session manager (p2p.cpp)                                     *)
(* ===================================================================== *)

Module P2P.

Inductive session_kind : Type := manual | seed | inbound | outbound.

(** What the manager does to its collaborators, in program order. *)
Inductive event : Type :=
| subscriber_start
| subscriber_stop
| subscriber_relay (ec : code)
| threadpool_join
| threadpool_spawn (threads : nat)
| threadpool_shutdown
| session_attach (kind : session_kind)
| session_start (kind : session_kind)
| hosts_load
| hosts_save
| connections_stop (ec : code)
| log_error
| handler_invoked (ec : code).

(** The data members of [class p2p] that the start, run and stop sequences
    read and write ([manual_] tells whether a manual session is stored),
    and the trace of events. *)
Record p2p : Type := mk_p2p {
  stopped_ : bool;
  manual_ : bool;
  trace : list event
}.

(** [result_handler]: a callback may itself call into the manager. *)
Definition result_handler := code -> p2p -> p2p.

(** The code outside p2p.cpp that the sequences call.  A session reports
    the result of its start to the handler it was given; by then other
    calls (a [stop], for one) may have reached the manager. *)
Class collaborators : Type := {
  (** [settings_.threads]. *)
  threads : nat;
  (** The code a session's [start] hands to its completion handler. *)
  session_result : session_kind -> p2p -> code;
  (** What reaches the manager between the start of a session and the
      call of its completion handler. *)
  session_meanwhile : session_kind -> p2p -> p2p;
  (** The result of [hosts::load]. *)
  hosts_load_result : p2p -> code;
  (** The result of [hosts::save]. *)
  hosts_save_result : p2p -> code
}.

Definition set_stopped (b : bool) (st : p2p) : p2p :=
  {| stopped_ := b; manual_ := manual_ st; trace := trace st |}.

Definition store_manual (b : bool) (st : p2p) : p2p :=
  {| stopped_ := stopped_ st; manual_ := b; trace := trace st |}.

Definition emit (e : event) (st : p2p) : p2p :=
  {| stopped_ := stopped_ st; manual_ := manual_ st;
     trace := trace st ++ [e] |}.

(** [p2p::p2p]: a manager is constructed stopped. *)
Definition create : p2p :=
  {| stopped_ := true; manual_ := false; trace := [] |}.

(** [p2p::stopped]. *)
Definition stopped (st : p2p) : bool := stopped_ st.

(** The completion of a session start: the handler bound by the caller
    runs with the session's result, after whatever reached the manager
    in the meantime. *)
Definition complete `{collaborators} (kind : session_kind)
  (handler : result_handler) (st : p2p) : p2p :=
  let st := session_meanwhile kind st in
  handler (session_result kind st) st.

(** [p2p::handle_hosts_seeded]. *)
Definition handle_hosts_seeded (ec : code) (handler : result_handler)
  (st : p2p) : p2p :=
  if stopped st then handler service_stopped st
  else if is_error ec then handler ec (emit log_error st)
  else handler success st.

(** [p2p::handle_hosts_loaded]. *)
Definition handle_hosts_loaded `{collaborators} (ec : code)
  (handler : result_handler) (st : p2p) : p2p :=
  if stopped st then handler service_stopped st
  else if is_error ec then handler ec (emit log_error st)
  else
    let st := emit (session_attach seed) st in
    let st := emit (session_start seed) st in
    complete seed (fun ec' => handle_hosts_seeded ec' handler) st.

(** [p2p::handle_manual_started]. *)
Definition handle_manual_started `{collaborators} (ec : code)
  (handler : result_handler) (st : p2p) : p2p :=
  if stopped st then handler service_stopped st
  else if is_error ec then handler ec (emit log_error st)
  else
    let loaded := hosts_load_result st in
    handle_hosts_loaded loaded handler (emit hosts_load st).

(** [p2p::start].  The handler bound for the manual session runs when the
    session reports, after the remaining statements of [start]. *)
Definition start `{collaborators} (handler : result_handler) (st : p2p)
  : p2p :=
  if negb (stopped st) then handler operation_failed st
  else
    let st := set_stopped false st in
    let st := emit subscriber_start st in
    let st := emit threadpool_join st in
    let st := emit (threadpool_spawn threads) st in
    let st := emit (session_attach manual) st in
    let st := emit (session_start manual) st in
    let st := store_manual true st in
    complete manual (fun ec => handle_manual_started ec handler) st.

(** [p2p::handle_outbound_started]. *)
Definition handle_outbound_started (ec : code) (handler : result_handler)
  (st : p2p) : p2p :=
  if is_error ec then handler ec (emit log_error st)
  else handler success st.

(** [p2p::handle_inbound_started]. *)
Definition handle_inbound_started `{collaborators} (ec : code)
  (handler : result_handler) (st : p2p) : p2p :=
  if is_error ec then handler ec (emit log_error st)
  else
    let st := emit (session_attach outbound) st in
    let st := emit (session_start outbound) st in
    complete outbound (fun ec' => handle_outbound_started ec' handler) st.

(** [p2p::run]. *)
Definition run `{collaborators} (handler : result_handler) (st : p2p)
  : p2p :=
  let st := emit (session_attach inbound) st in
  let st := emit (session_start inbound) st in
  complete inbound (fun ec => handle_inbound_started ec handler) st.

(** [p2p::stop]. *)
Definition stop `{collaborators} (handler : result_handler) (st : p2p)
  : p2p :=
  let st := emit subscriber_stop st in
  let st := emit (subscriber_relay service_stopped) st in
  let st := emit (connections_stop service_stopped) st in
  let st := store_manual false st in
  let ec := if stopped_ st then success else hosts_save_result st in
  let st := if stopped_ st then st else emit hosts_save st in
  let st := set_stopped true st in
  let st := if is_error ec then emit log_error st else st in
  let st := emit threadpool_shutdown st in
  handler ec st.

(** A handler that does nothing but note that it ran. *)
Definition recording_handler : result_handler :=
  fun ec st => emit (handler_invoked ec) st.

(** [n] consecutive calls of [stop]. *)
Fixpoint stop_repeatedly `{collaborators} (n : nat) (st : p2p) : p2p :=
  match n with
  | O => st
  | S k => stop_repeatedly k (stop recording_handler st)
  end.

(** The codes the handlers were invoked with, in order. *)
Fixpoint reported (events : list event) : list code :=
  match events with
  | [] => []
  | handler_invoked ec :: rest => ec :: reported rest
  | _ :: rest => reported rest
  end.

Definition is_hosts_save (e : event) : bool :=
  match e with
  | hosts_save => true
  | _ => false
  end.

Definition saves (events : list event) : nat :=
  length (filter is_hosts_save events).

(** The manager when the synchronous part of a successful [start] is
    over: running, subscriber and thread pool started, the manual session
    attached, started and stored. *)
Definition started `{collaborators} (st : p2p) : p2p :=
  store_manual true
    (emit (session_start manual)
       (emit (session_attach manual)
          (emit (threadpool_spawn threads)
             (emit threadpool_join
                (emit subscriber_start (set_stopped false st)))))).

(** The manager when the manual session reports. *)
Definition manual_done `{collaborators} (st : p2p) : p2p :=
  session_meanwhile manual (started st).

(** The manager after the host store has been loaded. *)
Definition hosts_loaded `{collaborators} (st : p2p) : p2p :=
  emit hosts_load (manual_done st).

(** The manager when the seed session reports. *)
Definition seed_done `{collaborators} (st : p2p) : p2p :=
  session_meanwhile seed
    (emit (session_start seed) (emit (session_attach seed) (hosts_loaded st))).

(** The manager in [stop] just before the host store is looked at. *)
Definition shut (st : p2p) : p2p :=
  store_manual false
    (emit (connections_stop service_stopped)
       (emit (subscriber_relay service_stopped)
          (emit subscriber_stop st))).

(** The code [stop] reports. *)
Definition stop_code `{collaborators} (st : p2p) : code :=
  if stopped st then success else hosts_save_result (shut st).

(** The events of one [stop], up to the call of the handler. *)
Definition stop_events `{collaborators} (st : p2p) : list event :=
  [subscriber_stop; subscriber_relay service_stopped;
   connections_stop service_stopped]
  ++ (if stopped st then [] else [hosts_save])
  ++ (if is_error (stop_code st) then [log_error] else [])
  ++ [threadpool_shutdown].

(** The manager when [stop] calls its handler. *)
Definition stop_done `{collaborators} (st : p2p) : p2p :=
  {| stopped_ := true; manual_ := false;
     trace := trace st ++ stop_events st |}.

(** Collaborators for evaluation: nothing reaches the manager while a
    session starts, every session starts, the host store loads and its
    save fails with [file_system]. *)
Definition sample_collaborators : collaborators :=
  {| threads := 4;
     session_result := fun _ _ => success;
     session_meanwhile := fun _ st => st;
     hosts_load_result := fun _ => success;
     hosts_save_result := fun _ => file_system |}.

(** The same, but the host store fails to load. *)
Definition failing_load : collaborators :=
  {| threads := 4;
     session_result := fun _ _ => success;
     session_meanwhile := fun _ st => st;
     hosts_load_result := fun _ => file_system;
     hosts_save_result := fun _ => success |}.

(** The same as [sample_collaborators], but the manager is stopped while
    the seed session runs. *)
Definition stopped_while_seeding : collaborators :=
  {| threads := 4;
     session_result := fun _ _ => success;
     session_meanwhile :=
       fun kind st =>
         match kind with
         | seed => set_stopped true st
         | _ => st
         end;
     hosts_load_result := fun _ => success;
     hosts_save_result := fun _ => success |}.

(* --------------------------------------------------------------------- *)
(** *** Run, connect, close and the life of a manager                     *)
(* --------------------------------------------------------------------- *)

(** The manager when the inbound session reports to [run]. *)
Definition inbound_done `{collaborators} (st : p2p) : p2p :=
  session_meanwhile inbound
    (emit (session_start inbound) (emit (session_attach inbound) st)).

(** The manager when the outbound session reports to [run]. *)
Definition outbound_done `{collaborators} (st : p2p) : p2p :=
  session_meanwhile outbound
    (emit (session_start outbound)
       (emit (session_attach outbound) (inbound_done st))).

(** What a call of [connect] comes to: nothing at all, the handler
    invoked with a code and a null channel, or the call handed on to the
    manual session. *)
Inductive connect_outcome : Type :=
| connect_nothing
| connect_refused (ec : code)
| connect_manual (hostname : list byte) (port : N) (with_handler : bool).

(** [p2p::connect(hostname, port)]. *)
Definition connect (hostname : list byte) (port : N) (st : p2p)
  : connect_outcome :=
  if stopped st then connect_nothing
  else if manual_ st then connect_manual hostname port false
  else connect_nothing.

(** [p2p::connect(hostname, port, handler)]. *)
Definition connect_with_handler (hostname : list byte) (port : N)
  (st : p2p) : connect_outcome :=
  if stopped st then connect_refused service_stopped
  else if manual_ st then connect_manual hostname port true
  else connect_nothing.

(** [p2p::handle_stopped]. *)
Definition handle_stopped : result_handler :=
  fun _ st => emit threadpool_join st.

(** [p2p::close], which is also all the destructor does. *)
Definition close `{collaborators} (st : p2p) : p2p :=
  stop handle_stopped st.

(** The calls a manager receives over its life. *)
Inductive api_call : Type :=
| api_start
| api_run
| api_stop
| api_close.

Definition api_perform `{collaborators} (c : api_call) (st : p2p) : p2p :=
  match c with
  | api_start => start recording_handler st
  | api_run => run recording_handler st
  | api_stop => stop recording_handler st
  | api_close => close st
  end.

Definition api_perform_all `{collaborators} (calls : list api_call)
  (st : p2p) : p2p :=
  fold_left (fun s c => api_perform c s) calls st.

Definition is_subscriber_start (e : event) : bool :=
  match e with
  | subscriber_start => true
  | _ => false
  end.

(** The number of starts that took effect. *)
Definition starts (events : list event) : nat :=
  length (filter is_subscriber_start events).

(** Every start that took effect has been followed by one save of the
    host store, the last start excepted while the manager is running; and
    a running manager has its manual session stored. *)
Definition balanced (st : p2p) : Prop :=
  saves (trace st) + (if stopped st then 0 else 1) = starts (trace st)
  /\ (stopped st = false -> manual_ st = true).

(** Collaborators for evaluation whose seed session fails. *)
Definition failing_seed : collaborators :=
  {| threads := 4;
     session_result :=
       fun kind _ => match kind with seed => bad_stream | _ => success end;
     session_meanwhile := fun _ st => st;
     hosts_load_result := fun _ => success;
     hosts_save_result := fun _ => success |}.

(** Collaborators for evaluation whose inbound session fails. *)
Definition failing_inbound : collaborators :=
  {| threads := 4;
     session_result :=
       fun kind _ =>
         match kind with inbound => address_in_use | _ => success end;
     session_meanwhile := fun _ st => st;
     hosts_load_result := fun _ => success;
     hosts_save_result := fun _ => success |}.

End P2P.

(* ===================================================================== *)
(** ** Properties of the script codec and of the signature hash           *)
(* ===================================================================== *)

Module ScriptFacts.
Import Script.

Local Open Scope N_scope.

Lemma opcode_value_inj (a b : opcode) :
  opcode_value a = opcode_value b -> a = b.
Proof. destruct a, b; simpl; intro H; try reflexivity; discriminate H. Qed.

Lemma opcode_eqb_eq (a b : opcode) : opcode_eqb a b = true <-> a = b.
Proof.
  unfold opcode_eqb. rewrite N.eqb_eq. split.
  - apply opcode_value_inj.
  - intros ->. reflexivity.
Qed.

Lemma to_N_byte_of_N (n : N) : n < 256 -> Byte.to_N (byte_of_N n) = n.
Proof.
  intro Hn. unfold byte_of_N. rewrite N.mod_small by exact Hn.
  destruct (Byte.of_N n) as [b|] eqn:E.
  - apply Byte.to_of_N. exact E.
  - apply Byte.of_N_None_iff in E. lia.
Qed.

Lemma length_le_bytes (width : nat) (n : N) :
  length (le_bytes width n) = width.
Proof.
  revert n. induction width as [|w IH]; intro n; simpl.
  - reflexivity.
  - now rewrite IH.
Qed.

Lemma le_N_le_bytes (width : nat) (n : N) :
  n < 256 ^ N.of_nat width -> le_N (le_bytes width n) = n.
Proof.
  revert n. induction width as [|w IH]; intros n Hn.
  - simpl in *. lia.
  - cbn [le_bytes le_N].
    assert (Hpow : 256 ^ N.of_nat (S w) = 256 * 256 ^ N.of_nat w).
    { rewrite Nat2N.inj_succ, N.pow_succ_r'. reflexivity. }
    rewrite Hpow in Hn.
    rewrite IH.
    + unfold byte_of_N.
      destruct (Byte.of_N (n mod 256)) as [b|] eqn:E.
      * apply Byte.to_of_N in E. rewrite E.
        pose proof (N.div_mod n 256). lia.
      * apply Byte.of_N_None_iff in E.
        pose proof (N.mod_upper_bound n 256). lia.
    + apply N.Div0.div_lt_upper_bound. exact Hn.
Qed.

Lemma le_N_bound (bs : list byte) : le_N bs < 256 ^ N.of_nat (length bs).
Proof.
  induction bs as [|b rest IH].
  - simpl. lia.
  - cbn [le_N length]. rewrite Nat2N.inj_succ, N.pow_succ_r'.
    pose proof (Byte.to_N_bounded b). lia.
Qed.

Lemma firstn_exact {A : Type} (n : nat) (l rest : list A) :
  length l = n -> firstn n (l ++ rest) = l.
Proof.
  intros <-. rewrite firstn_app, Nat.sub_diag, firstn_all. simpl.
  apply app_nil_r.
Qed.

Lemma skipn_exact {A : Type} (n : nat) (l rest : list A) :
  length l = n -> skipn n (l ++ rest) = rest.
Proof.
  intros <-. rewrite skipn_app, Nat.sub_diag, skipn_all. reflexivity.
Qed.

(** A sized push written by [save_operation] is read back. *)
Lemma read_sized_push_saved (tag : opcode) (width : nat)
  (payload rest : list byte) :
  N.of_nat (length payload) < 256 ^ N.of_nat width ->
  read_sized_push tag width
    (le_bytes width (N.of_nat (length payload)) ++ payload ++ rest)
  = ({| op_code := tag; op_data := payload |}, rest).
Proof.
  intro Hfit. unfold read_sized_push.
  pose proof (length_le_bytes width (N.of_nat (length payload))) as Hlen.
  rewrite (firstn_exact _ _ _ Hlen), (skipn_exact _ _ _ Hlen).
  rewrite le_N_le_bytes by exact Hfit.
  rewrite Nat2N.id.
  now rewrite (firstn_exact _ _ _ eq_refl), (skipn_exact _ _ _ eq_refl).
Qed.

(** Every opcode that is neither a push nor [special] is the enumerator
    of its own byte. *)
Lemma opcode_of_N_value (c : opcode) :
  is_push c = false -> c <> special ->
  78 < opcode_value c /\ opcode_value c < 256
  /\ opcode_of_N (opcode_value c) = c.
Proof.
  destruct c; simpl; intros Hp Hs;
    try discriminate Hp; try (exfalso; apply Hs; reflexivity);
    repeat split; reflexivity.
Qed.

(** One well-formed operation, saved and followed by any bytes, is parsed
    back, and the bytes that follow are left unread. *)
Lemma parse_saved_operation (op : operation) (rest : list byte) :
  well_formed_operation op = true ->
  exists b tail,
    save_operation op ++ rest = b :: tail
    /\ parse_operation b tail = (op, rest).
Proof.
  destruct op as [c payload]. unfold well_formed_operation, save_operation.
  cbn [op_code op_data].
  destruct (is_push c) eqn:Hpush.
  - rewrite andb_true_iff, opcode_eqb_eq, N.ltb_lt. intros [Htag Hsize].
    set (n := N.of_nat (length payload)) in *.
    unfold smallest_push in Htag. unfold push_header.
    destruct (n <=? 75) eqn:H75; [apply N.leb_le in H75 | apply N.leb_gt in H75].
    { subst c. exists (byte_of_N n), (payload ++ rest). split; [reflexivity|].
      unfold parse_operation. rewrite to_N_byte_of_N by lia.
      apply N.leb_le in H75. rewrite H75. unfold n.
      rewrite Nat2N.id.
      now rewrite (firstn_exact _ _ _ eq_refl), (skipn_exact _ _ _ eq_refl). }
    destruct (n <=? 255) eqn:H255;
      [apply N.leb_le in H255 | apply N.leb_gt in H255].
    { subst c. exists x4c, (le_bytes 1 n ++ payload ++ rest).
      split; [now rewrite <- app_assoc|].
      unfold parse_operation. change (Byte.to_N x4c) with 76.
      cbn [N.leb N.eqb N.compare Pos.compare Pos.compare_cont Pos.eqb].
      apply read_sized_push_saved. change (256 ^ N.of_nat 1) with 256.
      fold n. lia. }
    destruct (n <=? 65535) eqn:H65535;
      [apply N.leb_le in H65535 | apply N.leb_gt in H65535].
    { subst c. exists x4d, (le_bytes 2 n ++ payload ++ rest).
      split; [now rewrite <- app_assoc|].
      unfold parse_operation. change (Byte.to_N x4d) with 77.
      cbn [N.leb N.eqb N.compare Pos.compare Pos.compare_cont Pos.eqb].
      apply read_sized_push_saved. change (256 ^ N.of_nat 2) with 65536.
      fold n. lia. }
    subst c. exists x4e, (le_bytes 4 n ++ payload ++ rest).
    split; [now rewrite <- app_assoc|].
    unfold parse_operation. change (Byte.to_N x4e) with 78.
    cbn [N.leb N.eqb N.compare Pos.compare Pos.compare_cont Pos.eqb].
    apply read_sized_push_saved. change (256 ^ N.of_nat 4) with 4294967296.
    fold n. lia.
  - rewrite andb_true_iff, negb_true_iff. intros [Hdata Hspecial].
    destruct payload as [|x xs]; [|discriminate Hdata].
    assert (Hc : c <> special).
    { intro E. apply opcode_eqb_eq in E. congruence. }
    destruct (opcode_of_N_value c Hpush Hc) as (Hlow & Hhigh & Hback).
    exists (byte_of_N (opcode_value c)), rest. split; [reflexivity|].
    unfold parse_operation. rewrite to_N_byte_of_N by exact Hhigh.
    destruct (opcode_value c <=? 75) eqn:E1; [apply N.leb_le in E1; lia|].
    destruct (opcode_value c =? 76) eqn:E2; [apply N.eqb_eq in E2; lia|].
    destruct (opcode_value c =? 77) eqn:E3; [apply N.eqb_eq in E3; lia|].
    destruct (opcode_value c =? 78) eqn:E4; [apply N.eqb_eq in E4; lia|].
    rewrite Hback. reflexivity.
Qed.

(** The operations of a well-formed sequence are parsed back from their
    saved bytes. *)
Lemma parse_saved_operations (ops : operation_stack) :
  forallb well_formed_operation ops = true ->
  parse_operations (flat_map save_operation ops) = ops.
Proof.
  induction ops as [|op rest IH]; intro Hwf.
  - reflexivity.
  - cbn [forallb] in Hwf. apply andb_true_iff in Hwf as [Hop Hrest].
    cbn [flat_map].
    destruct (parse_saved_operation op (flat_map save_operation rest) Hop)
      as (b & tail & Hbytes & Hparse).
    rewrite Hbytes. simp parse_operations.
    rewrite Hparse. cbn [fst snd]. now rewrite IH.
Qed.

(** The size of the header [save_operation] writes before a payload. *)
Lemma length_push_header (n : N) :
  length (push_header n)
  = if n <=? 75 then 1%nat
    else if n <=? 255 then 2%nat
    else if n <=? 65535 then 3%nat else 5%nat.
Proof.
  unfold push_header.
  destruct (n <=? 75); [reflexivity|].
  destruct (n <=? 255); [reflexivity|].
  destruct (n <=? 65535); reflexivity.
Qed.

Lemma push_header_fits (width : nat) (n : N) :
  width = 1%nat \/ width = 2%nat \/ width = 4%nat ->
  n < 256 ^ N.of_nat width ->
  (length (push_header n) <= 1 + width)%nat.
Proof.
  intros Hw Hn. rewrite length_push_header.
  destruct (n <=? 75) eqn:E1; [lia|]. apply N.leb_gt in E1.
  destruct (n <=? 255) eqn:E2; [lia|]. apply N.leb_gt in E2.
  destruct Hw as [-> | Hw]; [change (256 ^ N.of_nat 1) with 256 in Hn; lia|].
  destruct (n <=? 65535) eqn:E3; [lia|]. apply N.leb_gt in E3.
  destruct Hw as [-> | ->]; [change (256 ^ N.of_nat 2) with 65536 in Hn|]; lia.
Qed.

(** A sized push read from the wire is saved in no more bytes than it
    took there (the opcode byte and what [read_sized_push] consumed). *)
Lemma read_sized_push_length (tag : opcode) (width : nat)
  (rest : list byte) :
  is_push tag = true ->
  width = 1%nat \/ width = 2%nat \/ width = 4%nat ->
  (length (save_operation (fst (read_sized_push tag width rest)))
   + length (snd (read_sized_push tag width rest)) <= S (length rest))%nat.
Proof.
  intros Htag Hw. unfold read_sized_push, save_operation.
  cbn [fst snd op_code op_data]. rewrite Htag.
  set (len := N.to_nat (le_N (firstn width rest))).
  set (body := skipn width rest).
  rewrite length_app, length_skipn, length_firstn.
  assert (Hbody : length body = (length rest - width)%nat)
    by (unfold body; apply length_skipn).
  destruct (Nat.le_gt_cases width (length rest)) as [Hlong | Hshort].
  - assert (Hhdr : (length (push_header
                      (N.of_nat (Nat.min len (length body)))) <= 1 + width)%nat).
    { apply push_header_fits; [exact Hw|].
      pose proof (le_N_bound (firstn width rest)) as Hb.
      rewrite length_firstn, Nat.min_l in Hb by exact Hlong.
      unfold len in *. lia. }
    lia.
  - assert (Hnil : body = []) by (apply length_zero_iff_nil; lia).
    rewrite Hnil. cbn [length]. rewrite Nat.min_0_r. simpl. lia.
Qed.

Lemma is_push_opcode_of_N (n : N) : is_push (opcode_of_N n) = false.
Proof.
  unfold opcode_of_N.
  repeat match goal with
         | |- context [match ?x with _ => _ end] => destruct x
         end; reflexivity.
Qed.

(** One parsing step: the operation it yields is saved in no more bytes
    than the step consumed. *)
Lemma parse_operation_length (b : byte) (rest : list byte) :
  (length (save_operation (fst (parse_operation b rest)))
   + length (snd (parse_operation b rest)) <= S (length rest))%nat.
Proof.
  unfold parse_operation.
  destruct (Byte.to_N b <=? 75) eqn:E; [apply N.leb_le in E|].
  - unfold save_operation. cbn [fst snd op_code op_data is_push].
    rewrite length_app, length_skipn, length_firstn, length_push_header.
    replace (N.of_nat (Nat.min (N.to_nat (Byte.to_N b)) (length rest))
             <=? 75) with true; [lia|].
    symmetry. apply N.leb_le. lia.
  - destruct (Byte.to_N b =? 76);
      [apply read_sized_push_length; [reflexivity | tauto]|].
    destruct (Byte.to_N b =? 77);
      [apply read_sized_push_length; [reflexivity | tauto]|].
    destruct (Byte.to_N b =? 78);
      [apply read_sized_push_length; [reflexivity | tauto]|].
    unfold save_operation. cbn [fst snd op_code op_data].
    rewrite is_push_opcode_of_N. simpl. lia.
Qed.

(** Saving what was parsed never takes more bytes than the input had. *)
Lemma save_parsed_length (raw_script : list byte) :
  (length (flat_map save_operation (parse_operations raw_script))
   <= length raw_script)%nat.
Proof.
  funelim (parse_operations raw_script); simp parse_operations.
  - simpl. lia.
  - cbn [flat_map length]. rewrite length_app.
    pose proof (parse_operation_length b rest). lia.
Qed.

Section SignatureHash.

Context {P : primitives}.

(** C1. For every transaction, input index, script code and hash type
    whose low five bits are 3 (SIGHASH_SINGLE): when the input index is at
    least the number of outputs of the transaction,
    [generate_signature_hash] returns the 32-byte digest that is all zeros
    except its last byte, which is 1. *)
Theorem sighash_single_out_of_range (tx : transaction) (i : N)
  (script_code : script) (hash_type : N) :
  N.land hash_type 31 = 3 ->
  N.of_nat (length (outputs tx)) <= i ->
  generate_signature_hash tx i script_code hash_type
  = repeat x00 31 ++ [x01]
  /\ length (generate_signature_hash tx i script_code hash_type) = 32%nat.
Proof.
  intros Hmode Hrange. unfold generate_signature_hash.
  rewrite Hmode. change (3 =? sighash.single) with true. cbv iota.
  apply N.leb_le in Hrange. rewrite Hrange.
  split; reflexivity.
Qed.

End SignatureHash.

(** C2. For every well-formed script [s], parsing the saved bytes gives
    the operations of [s] back (and [s] itself when its evaluation stack is
    empty, as the stack of a parsed script is); [save_script] writes each
    push with the smallest encoding that fits its payload, so no byte
    string that parses to [s] is shorter than [save_script s]. *)
Theorem parse_save_roundtrip (s : script) :
  well_formed s = true ->
  operations (parse_script (save_script s)) = operations s
  /\ (stack_ s = [] -> parse_script (save_script s) = s)
  /\ (forall raw : data_chunk,
        operations (parse_script raw) = operations s ->
        (length (save_script s) <= length raw)%nat).
Proof.
  intro Hwf. unfold well_formed in Hwf.
  assert (Hops : operations (parse_script (save_script s)) = operations s).
  { unfold parse_script, save_script, script_of. cbn [operations].
    apply parse_saved_operations. exact Hwf. }
  split; [exact Hops|]. split.
  - intro Hstack. destruct s as [ops stk]. cbn [stack_] in Hstack. subst stk.
    unfold parse_script, script_of in *. cbn [operations] in Hops.
    now rewrite Hops.
  - intros raw Hraw. unfold save_script. rewrite <- Hraw.
    unfold parse_script, script_of. cbn [operations].
    apply save_parsed_length.
Qed.

(** The wire bytes of the sample script parse to it, and it is saved as
    those bytes. *)
Example parse_sample_script :
  operations (parse_script sample_raw_script) = operations sample_script.
Proof. reflexivity. Qed.

Example save_sample_script : save_script sample_script = sample_raw_script.
Proof. reflexivity. Qed.

(** A push that arrived in a wider encoding than its payload needs is
    saved in the smallest one and so comes back with another tag: the
    condition on the tag in [well_formed_operation] cannot be dropped. *)
Example wide_push_is_retagged :
  operations (parse_script [x4d; x01; x00; x2a]) = [push pushdata2 [x2a]]
  /\ save_script (script_of [push pushdata2 [x2a]]) = [x01; x2a]
  /\ operations (parse_script [x01; x2a]) = [push raw_data [x2a]].
Proof. repeat split; reflexivity. Qed.

Lemma sighash_single_out_of_range_witness :
  N.land 131 31 = 3
  /\ N.of_nat (length (outputs sample_transaction)) <= 1
  /\ generate_signature_hash (H := sample_primitives)
       sample_transaction 1 sample_script 131
     = repeat x00 31 ++ [x01].
Proof.
  split; [reflexivity|]. split; [discriminate|].
  apply (@sighash_single_out_of_range sample_primitives
           sample_transaction 1 sample_script 131).
  - reflexivity.
  - discriminate.
Defined.

Lemma parse_save_roundtrip_witness :
  well_formed sample_script = true
  /\ operations (parse_script (save_script sample_script))
     = operations sample_script.
Proof.
  split; [reflexivity|].
  apply (parse_save_roundtrip sample_script). reflexivity.
Defined.

End ScriptFacts.

(* ===================================================================== *)
(** ** Properties of the channel proxy                                    *)
(* ===================================================================== *)

Module ProxyFacts.
Import Proxy.

(** How the fields of the proxy change under the state updates. *)
Lemma trace_emit (e : event) (st : proxy) :
  trace (emit e st) = trace st ++ [e].
Proof. reflexivity. Qed.

Lemma stopped_emit (e : event) (st : proxy) :
  stopped (emit e st) = stopped st.
Proof. reflexivity. Qed.

Lemma payload_buffer_emit (e : event) (st : proxy) :
  payload_buffer_ (emit e st) = payload_buffer_ st.
Proof. reflexivity. Qed.

Lemma heading_buffer_emit (e : event) (st : proxy) :
  heading_buffer_ (emit e st) = heading_buffer_ st.
Proof. reflexivity. Qed.

Lemma magic_emit (e : event) (st : proxy) : magic_ (emit e st) = magic_ st.
Proof. reflexivity. Qed.

Lemma trace_set_stopped (b : bool) (st : proxy) :
  trace (set_stopped b st) = trace st.
Proof. reflexivity. Qed.

Lemma stopped_set_stopped (b : bool) (st : proxy) :
  stopped (set_stopped b st) = b.
Proof. reflexivity. Qed.

Lemma payload_buffer_set_stopped (b : bool) (st : proxy) :
  payload_buffer_ (set_stopped b st) = payload_buffer_ st.
Proof. reflexivity. Qed.

Lemma heading_buffer_set_stopped (b : bool) (st : proxy) :
  heading_buffer_ (set_stopped b st) = heading_buffer_ st.
Proof. reflexivity. Qed.

Lemma magic_set_stopped (b : bool) (st : proxy) :
  magic_ (set_stopped b st) = magic_ st.
Proof. reflexivity. Qed.

Create Rewrite HintDb proxy_fields.

#[local] Hint Rewrite trace_emit stopped_emit payload_buffer_emit
  heading_buffer_emit magic_emit trace_set_stopped stopped_set_stopped
  payload_buffer_set_stopped heading_buffer_set_stopped magic_set_stopped
  : proxy_fields.

Lemma stop_running (ec : code) (st : proxy) :
  stopped st = false ->
  stopped (stop ec st) = true
  /\ trace (stop ec st) = trace st ++ stop_events ec
  /\ payload_buffer_ (stop ec st) = payload_buffer_ st
  /\ heading_buffer_ (stop ec st) = heading_buffer_ st
  /\ magic_ (stop ec st) = magic_ st.
Proof.
  intro Hrun. unfold stop, close. rewrite Hrun.
  autorewrite with proxy_fields. repeat split.
  unfold stop_events. now rewrite <- !app_assoc.
Qed.

Lemma stop_stopped (ec : code) (st : proxy) :
  stopped st = true -> stop ec st = st.
Proof. intro Hs. unfold stop. now rewrite Hs. Qed.

Lemma stopped_after_stop (ec : code) (st : proxy) :
  stopped (stop ec st) = true.
Proof.
  destruct (stopped st) eqn:Hs.
  - now rewrite stop_stopped.
  - now apply stop_running.
Qed.

Section WithCollaborators.

Context {C : collaborators}.

Lemma read_heading_stopped (st : proxy) :
  stopped st = true -> read_heading st = st.
Proof. intro Hs. unfold read_heading. now rewrite Hs. Qed.

Lemma read_payload_stopped (head : heading) (st : proxy) :
  stopped st = true -> read_payload head st = st.
Proof. intro Hs. unfold read_payload. now rewrite Hs. Qed.

Lemma handle_read_heading_stopped (ec : boost_code) (st : proxy) :
  stopped st = true -> handle_read_heading ec st = st.
Proof. intro Hs. unfold handle_read_heading. now rewrite Hs. Qed.

Lemma handle_read_payload_stopped (ec : boost_code) (head : heading)
  (st : proxy) :
  stopped st = true -> handle_read_payload ec head st = st.
Proof. intro Hs. unfold handle_read_payload. now rewrite Hs. Qed.

Lemma do_send_stopped (message command : list byte)
  (handler : result_handler) (st : proxy) :
  stopped st = true ->
  do_send message handler command st = handler channel_stopped st.
Proof. intro Hs. unfold do_send. now rewrite Hs. Qed.

Lemma count_emit (p : event -> bool) (e : event) (st : proxy) :
  p e = false -> count p (emit e st) = count p st.
Proof.
  intro He. unfold count, emit. cbn [trace].
  rewrite filter_app, length_app. cbn [filter]. rewrite He. cbn. lia.
Qed.

(** On a stopped proxy each call leaves the flag set and adds only
    handler invocations, log lines and stop subscriptions to the trace. *)
Lemma perform_stopped (p : event -> bool) (c : call) (st : proxy) :
  (forall ec, p (handler_invoked ec) = false) ->
  (forall l, p (log l) = false) ->
  p stop_subscriber_subscribe = false ->
  stopped st = true ->
  stopped (perform c st) = true /\ count p (perform c st) = count p st.
Proof.
  intros Hh Hl Hs Hst.
  destruct c; cbn [perform].
  - rewrite do_send_stopped by exact Hst. unfold recording_handler.
    split; [exact Hst | now apply count_emit].
  - unfold handle_send, recording_handler.
    destruct (is_error (boost_to_error_code ec)).
    + split; [exact Hst|]. now rewrite !count_emit.
    + split; [exact Hst | now apply count_emit].
  - rewrite read_heading_stopped by exact Hst. now split.
  - rewrite handle_read_heading_stopped by exact Hst. now split.
  - rewrite read_payload_stopped by exact Hst. now split.
  - rewrite handle_read_payload_stopped by exact Hst. now split.
  - rewrite stop_stopped by exact Hst. now split.
  - unfold subscribe_stop. split; [exact Hst | now apply count_emit].
Qed.

Lemma perform_all_stopped (p : event -> bool) (calls : list call)
  (st : proxy) :
  (forall ec, p (handler_invoked ec) = false) ->
  (forall l, p (log l) = false) ->
  p stop_subscriber_subscribe = false ->
  stopped st = true ->
  stopped (perform_all calls st) = true
  /\ count p (perform_all calls st) = count p st.
Proof.
  intros Hh Hl Hs. revert st.
  induction calls as [|c rest IH]; intros st Hst.
  - split; [assumption | reflexivity].
  - cbn [perform_all fold_left].
    destruct (perform_stopped p c st Hh Hl Hs Hst) as [Hst' Hcount].
    destruct (IH _ Hst') as [Hfinal Hcount'].
    split; [exact Hfinal|]. unfold perform_all in Hcount'. congruence.
Qed.

(** C3. For every running channel and every successfully parsed heading
    bearing the channel's magic (the read itself having succeeded): when
    the heading's payload size is strictly greater than
    [max_payload_size] (10 MiB) the channel stops with [bad_stream] and no
    payload read is initiated; when it equals [max_payload_size] exactly
    the heading is accepted and the payload read is initiated. *)
Theorem payload_size_guard (st : proxy) (head : heading) :
  stopped st = false ->
  heading_from_data (heading_buffer_ st) = Some head ->
  magic head = magic_ st ->
  max_payload_size = 10485760%N
  /\ ((max_payload_size < payload_size head)%N ->
      stopped (handle_read_heading 0 st) = true
      /\ trace (handle_read_heading 0 st)
         = trace st ++ log warning :: stop_events bad_stream
      /\ count is_read (handle_read_heading 0 st) = count is_read st
      /\ payload_buffer_ (handle_read_heading 0 st) = payload_buffer_ st)
  /\ (payload_size head = max_payload_size ->
      stopped (handle_read_heading 0 st) = false
      /\ trace (handle_read_heading 0 st)
         = trace st ++ [async_read_payload max_payload_size; activity]
      /\ length (payload_buffer_ (handle_read_heading 0 st))
         = N.to_nat max_payload_size).
Proof.
  intros Hrun Hparse Hmagic. split; [reflexivity|].
  unfold handle_read_heading. rewrite Hrun, Hparse, Hmagic, N.eqb_refl.
  cbn [boost_failed Nat.eqb negb]. split.
  - intro Hbig. apply N.ltb_lt in Hbig. rewrite Hbig.
    assert (Hrun' : stopped (emit (log warning) st) = false) by exact Hrun.
    destruct (stop_running bad_stream _ Hrun') as (Hs & Ht & Hp & _).
    repeat split.
    + exact Hs.
    + rewrite Ht. cbn [emit trace]. now rewrite <- app_assoc.
    + unfold count. rewrite Ht. cbn [emit trace].
      rewrite !filter_app, !length_app. cbn. lia.
    + rewrite Hp. reflexivity.
  - intro Hexact. rewrite Hexact, N.ltb_irrefl.
    unfold read_payload. rewrite Hrun, Hexact.
    repeat split.
    + exact Hrun.
    + cbn [emit set_payload_buffer trace]. now rewrite <- app_assoc.
    + cbn [emit set_payload_buffer payload_buffer_]. unfold resize.
      rewrite length_app, length_firstn, repeat_length. lia.
Qed.

(** C6. For every heading read on a running channel (the read itself
    having succeeded): when the heading fails to parse or its magic
    differs from the channel's magic, the channel stops with [bad_stream]
    and no read is initiated; the payload buffer is untouched. *)
Theorem invalid_heading_stops (st : proxy) :
  stopped st = false ->
  (heading_from_data (heading_buffer_ st) = None
   \/ exists head, heading_from_data (heading_buffer_ st) = Some head
                   /\ magic head <> magic_ st) ->
  stopped (handle_read_heading 0 st) = true
  /\ trace (handle_read_heading 0 st)
     = trace st ++ log warning :: stop_events bad_stream
  /\ count is_read (handle_read_heading 0 st) = count is_read st
  /\ payload_buffer_ (handle_read_heading 0 st) = payload_buffer_ st.
Proof.
  intros Hrun Hbad.
  assert (Hstep : handle_read_heading 0 st
                  = stop bad_stream (emit (log warning) st)).
  { unfold handle_read_heading. rewrite Hrun.
    cbn [boost_failed Nat.eqb negb].
    destruct Hbad as [-> | (head & -> & Hmagic)]; [reflexivity|].
    apply N.eqb_neq in Hmagic. now rewrite Hmagic. }
  rewrite Hstep.
  assert (Hrun' : stopped (emit (log warning) st) = false) by exact Hrun.
  destruct (stop_running bad_stream _ Hrun') as (Hs & Ht & Hp & _).
  repeat split.
  - exact Hs.
  - rewrite Ht. cbn [emit trace]. now rewrite <- app_assoc.
  - unfold count. rewrite Ht. cbn [emit trace].
    rewrite !filter_app, !length_app. cbn. lia.
  - rewrite Hp. reflexivity.
Qed.

(** Whatever follows a return of [stop] leaves the channel stopped and
    starts no read, writes nothing and delivers nothing. *)
Lemma silent_after_stop (ec : code) (calls : list call) (st : proxy) :
  stopped (perform_all calls (stop ec st)) = true
  /\ count is_delivery (perform_all calls (stop ec st))
     = count is_delivery (stop ec st)
  /\ count is_write (perform_all calls (stop ec st))
     = count is_write (stop ec st)
  /\ count is_read (perform_all calls (stop ec st))
     = count is_read (stop ec st).
Proof.
  pose proof (stopped_after_stop ec st) as Hs.
  repeat split.
  - now apply (perform_all_stopped is_delivery).
  - now apply (perform_all_stopped is_delivery).
  - now apply (perform_all_stopped is_write).
  - now apply (perform_all_stopped is_read).
Qed.

(** C4. For every channel, once [stopped] is true: [do_send] invokes its
    handler with [channel_stopped] and does nothing else (no write), and
    the read-completion handlers return without any effect (no delivery);
    hence after [stop] has returned, whatever sends, completions, stops
    and read-cycle entries follow, the channel stays stopped, nothing more
    is delivered to the message subscribers, nothing more is written to
    the socket and every send reports [channel_stopped]. *)
Theorem stopped_channel_is_silent :
  (forall st : proxy,
      stopped st = true ->
      (forall message command handler,
          do_send message handler command st = handler channel_stopped st)
      /\ (forall ec, handle_read_heading ec st = st)
      /\ (forall ec head, handle_read_payload ec head st = st))
  /\ (forall (st : proxy) (ec : code) (calls : list call),
        stopped (stop ec st) = true
        /\ stopped (perform_all calls (stop ec st)) = true
        /\ count is_delivery (perform_all calls (stop ec st))
           = count is_delivery (stop ec st)
        /\ count is_write (perform_all calls (stop ec st))
           = count is_write (stop ec st)
        /\ forall message command,
             do_send message recording_handler command
               (perform_all calls (stop ec st))
             = emit (handler_invoked channel_stopped)
                 (perform_all calls (stop ec st))).
Proof.
  split.
  - intros st Hst. repeat split; intros.
    + now apply do_send_stopped.
    + now apply handle_read_heading_stopped.
    + now apply handle_read_payload_stopped.
  - intros st ec calls.
    destruct (silent_after_stop ec calls st) as (Hs & Hd & Hw & _).
    repeat split; try assumption.
    + apply stopped_after_stop.
    + intros. now apply do_send_stopped.
Qed.

(** The branches of [handle_read_payload] on a running proxy. *)
Lemma handle_read_payload_running (ec : boost_code) (head : heading)
  (st : proxy) :
  stopped st = false ->
  handle_read_payload ec head st
  = if negb (checksum head =? bitcoin_checksum (payload_buffer_ st))%N
    then stop bad_stream (emit (log warning) st)
    else
      let parse_error := fst (load_result head (payload_buffer_ st)) in
      let loaded :=
        emit (message_subscriber_load head (payload_buffer_ st)) st in
      match load_stops head (payload_buffer_ st) with
      | Some reason => stop reason loaded
      | None =>
          let noted :=
            if negb (is_error parse_error)
            then emit (log (if snd (load_result head (payload_buffer_ st))
                            then warning else debug)) loaded
            else loaded in
          if boost_failed ec then stop_boost ec (emit (log warning) noted)
          else
            read_heading
              (emit activity
                 (if is_error parse_error
                  then stop parse_error (emit (log warning) noted)
                  else noted))
      end.
Proof.
  intro Hrun. unfold handle_read_payload. rewrite Hrun.
  destruct (negb (checksum head =? bitcoin_checksum (payload_buffer_ st))%N);
    [reflexivity|].
  cbv zeta. destruct (load_stops head (payload_buffer_ st)) as [reason|].
  - now rewrite stopped_after_stop.
  - rewrite stopped_emit, Hrun. reflexivity.
Qed.

Lemma reads_stop (ec : code) (st : proxy) :
  count is_read (stop ec st) = count is_read st.
Proof.
  destruct (stopped st) eqn:Hs.
  - now rewrite stop_stopped.
  - destruct (stop_running ec st Hs) as (_ & Ht & _).
    unfold count. rewrite Ht, filter_app, length_app. cbn. lia.
Qed.

(** C10, as the code has it.  After [handle_read_payload] has invoked
    [stop] for a checksum mismatch, a transport error or a payload parse
    error, the channel is stopped and no socket read is initiated, neither
    by the handler itself nor by any call that follows, until the channel
    is started again: a start then initiates the next heading read.  In
    the parse-error branch (no subscriber having stopped the channel while
    the payload was loaded) the handler goes on to [handle_activity] and
    [read_heading] after the stop, and [read_heading] returns without
    reading because the channel is stopped. *)
Theorem payload_failure_ends_reads (ec : boost_code) (head : heading)
  (st : proxy) :
  stopped st = false ->
  (checksum head <> bitcoin_checksum (payload_buffer_ st)
   \/ boost_failed ec = true
   \/ is_error (fst (load_result head (payload_buffer_ st))) = true) ->
  stopped (handle_read_payload ec head st) = true
  /\ count is_read (handle_read_payload ec head st) = count is_read st
  /\ (forall calls,
        count is_read (perform_all calls (handle_read_payload ec head st))
        = count is_read st)
  /\ (forall calls,
        count is_read
          (start recording_handler
             (perform_all calls (handle_read_payload ec head st)))
        = S (count is_read st))
  /\ (checksum head = bitcoin_checksum (payload_buffer_ st) ->
      load_stops head (payload_buffer_ st) = None ->
      boost_failed ec = false ->
      is_error (fst (load_result head (payload_buffer_ st))) = true ->
      handle_read_payload ec head st
      = read_heading
          (emit activity
             (stop (fst (load_result head (payload_buffer_ st)))
                (emit (log warning)
                   (emit (message_subscriber_load head (payload_buffer_ st))
                      st))))
      /\ trace (handle_read_payload ec head st)
         = trace st
           ++ [message_subscriber_load head (payload_buffer_ st); log warning]
           ++ stop_events (fst (load_result head (payload_buffer_ st)))
           ++ [activity]).
Proof.
  intros Hrun Hfail.
  set (payload := payload_buffer_ st) in *.
  set (parse_error := fst (load_result head payload)) in *.
  set (loaded := emit (message_subscriber_load head payload) st).
  set (noted :=
         if negb (is_error parse_error)
         then emit (log (if snd (load_result head payload)
                         then warning else debug)) loaded
         else loaded).
  assert (Hloaded : count is_read loaded = count is_read st).
  { unfold loaded. now rewrite count_emit. }
  assert (Hnoted : count is_read noted = count is_read st).
  { unfold noted. destruct (negb (is_error parse_error)).
    - now rewrite count_emit.
    - exact Hloaded. }
  assert (Hcases := handle_read_payload_running ec head st Hrun).
  fold payload in Hcases. cbv zeta in Hcases.
  fold parse_error loaded noted in Hcases.
  assert (Hmain : stopped (handle_read_payload ec head st) = true
                  /\ count is_read (handle_read_payload ec head st)
                     = count is_read st).
  { rewrite Hcases.
    destruct (checksum head =? bitcoin_checksum payload)%N eqn:Hsum;
      cbn [negb].
    - destruct (load_stops head payload) as [reason|].
      { split; [apply stopped_after_stop | now rewrite reads_stop]. }
      destruct (boost_failed ec) eqn:Hec.
      + unfold stop_boost. split; [apply stopped_after_stop|].
        now rewrite reads_stop, count_emit.
      + destruct Hfail as [Hne | [Hne | Hperr]].
        * apply N.eqb_eq in Hsum. contradiction.
        * discriminate Hne.
        * rewrite Hperr.
          assert (Hs : stopped (emit activity
                                  (stop parse_error
                                     (emit (log warning) noted))) = true)
            by apply stopped_after_stop.
          rewrite read_heading_stopped by exact Hs.
          split; [exact Hs|].
          now rewrite count_emit, reads_stop, count_emit.
    - split; [apply stopped_after_stop|].
      now rewrite reads_stop, count_emit. }
  destruct Hmain as [Hstopped Hreads].
  assert (Hlater : forall calls,
             stopped (perform_all calls (handle_read_payload ec head st))
             = true
             /\ count is_read
                  (perform_all calls (handle_read_payload ec head st))
                = count is_read st).
  { intro calls. rewrite <- Hreads.
    now apply (perform_all_stopped is_read). }
  split; [exact Hstopped|]. split; [exact Hreads|].
  split; [intro calls; apply Hlater|]. split.
  - intro calls. destruct (Hlater calls) as [Hs Hr].
    unfold start. rewrite Hs. cbn [negb].
    unfold read_heading, recording_handler.
    rewrite !stopped_emit, stopped_set_stopped.
    unfold count in *.
    rewrite !trace_emit, trace_set_stopped, !filter_app, !length_app.
    cbn. lia.
  - intros Hsum Hquiet Hec Hperr.
    assert (Hnoted_eq : noted = loaded).
    { unfold noted. now rewrite Hperr. }
    rewrite Hcases, Hsum, N.eqb_refl, Hquiet, Hec, Hperr, Hnoted_eq.
    cbn [negb]. split; [reflexivity|].
    assert (Hs : stopped (emit activity
                            (stop parse_error
                               (emit (log warning) loaded))) = true)
      by apply stopped_after_stop.
    rewrite read_heading_stopped by exact Hs.
    assert (Hpre : stopped (emit (log warning) loaded) = false) by exact Hrun.
    destruct (stop_running parse_error _ Hpre) as (_ & Ht & _).
    cbn [emit trace] in *. rewrite Ht.
    unfold loaded. cbn [emit trace]. now rewrite <- !app_assoc.
Qed.

(** A message subscriber that stops the channel while the payload is
    loaded ends the read cycle at once: nothing is logged, no activity is
    noted and no read follows. *)
Lemma stop_during_load (ec : boost_code) (head : heading) (reason : code)
  (st : proxy) :
  stopped st = false ->
  checksum head = bitcoin_checksum (payload_buffer_ st) ->
  load_stops head (payload_buffer_ st) = Some reason ->
  stopped (handle_read_payload ec head st) = true
  /\ trace (handle_read_payload ec head st)
     = trace st
       ++ message_subscriber_load head (payload_buffer_ st)
          :: stop_events reason.
Proof.
  intros Hrun Hsum Hstops.
  rewrite handle_read_payload_running by exact Hrun.
  rewrite Hsum, N.eqb_refl, Hstops. cbn [negb]. cbv zeta.
  assert (Hpre : stopped (emit (message_subscriber_load head
                                  (payload_buffer_ st)) st) = false)
    by exact Hrun.
  destruct (stop_running reason _ Hpre) as (Hs & Ht & _).
  split; [exact Hs|]. rewrite Ht, trace_emit, <- app_assoc. reflexivity.
Qed.

End WithCollaborators.

(** C7. When the proxy is not stopped, [start] does nothing but invoke the
    handler with [operation_failed].  When it is stopped, [start] clears
    the flag, starts the stop subscriber and the message subscriber,
    invokes the handler with [success] before any read has been initiated
    and then enters the read cycle: unless the handler stopped the channel
    again, the heading read is initiated right after the handler has
    returned. *)
Theorem start_then_read (st : proxy) :
  (stopped st = false ->
   forall handler, start handler st = handler operation_failed st)
  /\ (stopped st = true ->
      stopped (emit message_subscriber_start
                 (emit stop_subscriber_start (set_stopped false st))) = false
      /\ trace (emit message_subscriber_start
                  (emit stop_subscriber_start (set_stopped false st)))
         = trace st ++ [stop_subscriber_start; message_subscriber_start]
      /\ (forall handler,
            start handler st
            = read_heading
                (handler success
                   (emit message_subscriber_start
                      (emit stop_subscriber_start (set_stopped false st)))))
      /\ (forall handler,
            stopped (handler success
                       (emit message_subscriber_start
                          (emit stop_subscriber_start
                             (set_stopped false st)))) = false ->
            trace (start handler st)
            = trace (handler success
                       (emit message_subscriber_start
                          (emit stop_subscriber_start
                             (set_stopped false st))))
              ++ [async_read_heading])
      /\ trace (start recording_handler st)
         = trace st ++ [stop_subscriber_start; message_subscriber_start;
                        handler_invoked success; async_read_heading]).
Proof.
  split.
  - intros Hrun handler. unfold start. now rewrite Hrun.
  - intro Hst. repeat split.
    + cbn [emit set_stopped trace]. now rewrite <- app_assoc.
    + intro handler. unfold start. now rewrite Hst.
    + intros handler Hkeeps. unfold start. rewrite Hst. cbn [negb].
      unfold read_heading. now rewrite Hkeeps.
    + unfold start. rewrite Hst. cbn [negb].
      unfold read_heading, recording_handler, stopped.
      cbn [emit set_stopped trace stopped_]. now rewrite <- !app_assoc.
Qed.

(** C5, as the code has it.  A proxy is constructed with the flag set; a
    [start] on a stopped proxy clears it and no other call does.  For a
    non-success code [ec]: [stop ec] on a running proxy sets [stopped],
    stops the message subscriber and broadcasts [channel_stopped] to it,
    stops the stop subscriber and relays [ec] to it, and closes the socket;
    [stop] on a stopped proxy (one that was never started, or any later
    stop with no [start] in between) returns with no effect. *)
Theorem stop_once_until_restart {C : collaborators} (ec : code)
  (st : proxy) :
  ec <> success ->
  (stopped st = false ->
   stopped (stop ec st) = true
   /\ trace (stop ec st) = trace st ++ stop_events ec)
  /\ (stopped st = true -> stop ec st = st)
  /\ (forall magic, stop ec (create magic) = create magic)
  /\ (forall calls ec',
        stopped (perform_all calls (stop ec st)) = true
        /\ stop ec' (perform_all calls (stop ec st))
           = perform_all calls (stop ec st))
  /\ (forall handler,
        exists ready,
          stopped ready = false
          /\ start handler (stop ec st)
             = read_heading (handler success ready)).
Proof.
  intros _. repeat split.
  - now apply stop_running.
  - now apply stop_running.
  - apply stop_stopped.
  - now apply silent_after_stop.
  - apply stop_stopped. now apply silent_after_stop.
  - intro handler.
    exists (emit message_subscriber_start
              (emit stop_subscriber_start (set_stopped false (stop ec st)))).
    split; [reflexivity|].
    unfold start. now rewrite stopped_after_stop.
Qed.

(** C5 as stated fails on the code.  A proxy is constructed with the flag
    set, so the first [stop] of its life does nothing (the socket stays
    open); [start] clears the flag; and after a stop the proxy can be
    started and stopped again, the second stop broadcasting, relaying and
    closing once more. *)
Lemma stopped_flag_is_not_one_way :
  stopped (create sample_magic) = true
  /\ stop bad_stream (create sample_magic) = create sample_magic
  /\ stopped (start recording_handler (create sample_magic)) = false
  /\ stopped (stop bad_stream sample_running) = true
  /\ stopped (start recording_handler (stop bad_stream sample_running))
     = false
  /\ trace (stop channel_stopped
              (start recording_handler (stop bad_stream sample_running)))
     = trace (start recording_handler (stop bad_stream sample_running))
       ++ stop_events channel_stopped.
Proof. repeat split; reflexivity. Qed.

(** A ping frame on a started channel: the heading is accepted and the
    payload read initiated; the payload is loaded for the subscribers and
    the next heading read initiated. *)
Example ping_frame_is_delivered :
  trace
    (handle_read_payload (H := sample_collaborators) 0 ping_heading
       (set_payload_buffer [x01; x00; x00; x00; x00; x00; x00; x00]
          (handle_read_heading (H := sample_collaborators) 0
             (set_heading_buffer
                ([xf9; xbe; xb4; xd9] ++ ping_command
                 ++ [x08; x00; x00; x00] ++ [x01; x00; x00; x00])
                sample_running))))
  = [stop_subscriber_start; message_subscriber_start;
     handler_invoked success; async_read_heading;
     async_read_payload 8; activity;
     message_subscriber_load ping_heading
       [x01; x00; x00; x00; x00; x00; x00; x00];
     log debug; activity; async_read_heading].
Proof. reflexivity. Qed.

Lemma payload_size_guard_witness :
  stopped (set_heading_buffer oversized_heading sample_running) = false
  /\ (max_payload_size
      < payload_size
          {| magic := sample_magic; command := ping_command;
             payload_size := 10485761; checksum := 0 |})%N
  /\ stopped (handle_read_heading (H := sample_collaborators) 0
                (set_heading_buffer oversized_heading sample_running))
     = true
  /\ stopped (set_heading_buffer largest_heading sample_running) = false
  /\ stopped (handle_read_heading (H := sample_collaborators) 0
                (set_heading_buffer largest_heading sample_running))
     = false.
Proof.
  split; [reflexivity|]. split; [reflexivity|]. split; [|split].
  - apply (@payload_size_guard sample_collaborators
             (set_heading_buffer oversized_heading sample_running)
             {| magic := sample_magic; command := ping_command;
                payload_size := 10485761; checksum := 0 |});
      reflexivity.
  - reflexivity.
  - apply (@payload_size_guard sample_collaborators
             (set_heading_buffer largest_heading sample_running)
             {| magic := sample_magic; command := ping_command;
                payload_size := 10485760; checksum := 0 |});
      reflexivity.
Defined.

Lemma invalid_heading_stops_witness :
  stopped (set_heading_buffer foreign_heading sample_running) = false
  /\ (exists head,
         wire_heading foreign_heading = Some head
         /\ magic head <> sample_magic)
  /\ stopped (handle_read_heading (H := sample_collaborators) 0
                (set_heading_buffer foreign_heading sample_running))
     = true.
Proof.
  assert (Hforeign :
            exists head,
              wire_heading foreign_heading = Some head
              /\ magic head <> sample_magic).
  { eexists. split; [reflexivity | discriminate]. }
  split; [reflexivity|]. split; [exact Hforeign|].
  apply (@invalid_heading_stops sample_collaborators
           (set_heading_buffer foreign_heading sample_running)).
  - reflexivity.
  - right. exact Hforeign.
Defined.

Lemma stopped_channel_is_silent_witness :
  stopped (create sample_magic) = true
  /\ do_send [x00] recording_handler ping_command (create sample_magic)
     = recording_handler channel_stopped (create sample_magic)
  /\ handle_read_payload (H := sample_collaborators) 0 ping_heading
       (create sample_magic)
     = create sample_magic.
Proof.
  split; [reflexivity|].
  destruct (@stopped_channel_is_silent sample_collaborators) as [Hquiet _].
  destruct (Hquiet (create sample_magic) eq_refl) as (Hsend & _ & Hpayload).
  split.
  - apply Hsend.
  - apply Hpayload.
Defined.

(** C10 as stated fails on the code.  A channel that a bad checksum or a
    payload parse error has stopped can be started again, and the start
    initiates the next heading read. *)
Lemma reads_resume_after_restart :
  stopped (handle_read_payload (H := sample_collaborators) 0 ping_heading
             (set_payload_buffer corrupt_payload sample_running)) = true
  /\ count is_read
       (start recording_handler
          (handle_read_payload (H := sample_collaborators) 0 ping_heading
             (set_payload_buffer corrupt_payload sample_running)))
     = S (count is_read
            (handle_read_payload (H := sample_collaborators) 0 ping_heading
               (set_payload_buffer corrupt_payload sample_running)))
  /\ stopped (handle_read_payload (H := sample_collaborators) 0 ping_heading
                (set_payload_buffer short_payload sample_running)) = true
  /\ trace
       (start recording_handler
          (handle_read_payload (H := sample_collaborators) 0 ping_heading
             (set_payload_buffer short_payload sample_running)))
     = trace
         (handle_read_payload (H := sample_collaborators) 0 ping_heading
            (set_payload_buffer short_payload sample_running))
       ++ [stop_subscriber_start; message_subscriber_start;
           handler_invoked success; async_read_heading].
Proof. repeat split; reflexivity. Qed.

Lemma payload_failure_ends_reads_witness :
  stopped (set_payload_buffer corrupt_payload sample_running) = false
  /\ checksum ping_heading
     <> bitcoin_checksum (collaborators := sample_collaborators)
          corrupt_payload
  /\ stopped (handle_read_payload (H := sample_collaborators) 0
                ping_heading
                (set_payload_buffer corrupt_payload sample_running))
     = true
  /\ stopped (set_payload_buffer short_payload sample_running) = false
  /\ load_stops (collaborators := sample_collaborators)
       ping_heading short_payload = None
  /\ is_error (fst (load_result (collaborators := sample_collaborators)
                      ping_heading short_payload)) = true
  /\ trace (handle_read_payload (H := sample_collaborators) 0
              ping_heading
              (set_payload_buffer short_payload sample_running))
     = trace sample_running
       ++ [message_subscriber_load ping_heading short_payload; log warning]
       ++ stop_events bad_stream ++ [activity].
Proof.
  split; [reflexivity|]. split; [discriminate|].
  split; [|split; [|split; [|split]]].
  - apply (@payload_failure_ends_reads sample_collaborators 0 ping_heading
             (set_payload_buffer corrupt_payload sample_running)).
    + reflexivity.
    + left. discriminate.
  - reflexivity.
  - reflexivity.
  - reflexivity.
  - apply (@payload_failure_ends_reads sample_collaborators 0 ping_heading
             (set_payload_buffer short_payload sample_running));
      try reflexivity.
    right. right. reflexivity.
Defined.

(** A subscriber that stops the channel while a valid ping is loaded: the
    handler returns at its second test of [stopped], with no log line, no
    activity and no next read. *)
Example ping_stopped_during_load :
  trace
    (handle_read_payload (H := stopping_subscriber) 0 ping_heading
       (set_payload_buffer [x01; x00; x00; x00; x00; x00; x00; x00]
          sample_running))
  = trace sample_running
    ++ message_subscriber_load ping_heading
         [x01; x00; x00; x00; x00; x00; x00; x00]
       :: stop_events channel_stopped.
Proof. reflexivity. Qed.

Lemma start_then_read_witness :
  stopped (create sample_magic) = true
  /\ trace (start recording_handler (create sample_magic))
     = trace (create sample_magic)
       ++ [stop_subscriber_start; message_subscriber_start;
           handler_invoked success; async_read_heading]
  /\ stopped sample_running = false
  /\ start recording_handler sample_running
     = recording_handler operation_failed sample_running.
Proof.
  split; [reflexivity|]. split; [|split].
  - apply (start_then_read (create sample_magic)). reflexivity.
  - reflexivity.
  - apply (start_then_read sample_running). reflexivity.
Defined.

Lemma stop_once_until_restart_witness :
  bad_stream <> success
  /\ stopped sample_running = false
  /\ trace (stop bad_stream sample_running)
     = trace sample_running ++ stop_events bad_stream
  /\ stop channel_stopped (stop bad_stream sample_running)
     = stop bad_stream sample_running.
Proof.
  assert (Hcode : bad_stream <> success) by discriminate.
  split; [exact Hcode|]. split; [reflexivity|].
  destruct (@stop_once_until_restart sample_collaborators bad_stream
              sample_running Hcode) as (Hfirst & _ & _ & Hlater & _).
  split.
  - apply Hfirst. reflexivity.
  - apply (Hlater [] channel_stopped).
Defined.

(* --------------------------------------------------------------------- *)
(** *** The read cycle, sends and the life of a proxy                     *)
(* --------------------------------------------------------------------- *)

Lemma trace_set_payload_buffer (bytes : list byte) (st : proxy) :
  trace (set_payload_buffer bytes st) = trace st.
Proof. reflexivity. Qed.

Lemma stopped_set_payload_buffer (bytes : list byte) (st : proxy) :
  stopped (set_payload_buffer bytes st) = stopped st.
Proof. reflexivity. Qed.

Lemma magic_set_payload_buffer (bytes : list byte) (st : proxy) :
  magic_ (set_payload_buffer bytes st) = magic_ st.
Proof. reflexivity. Qed.

Lemma payload_buffer_set_payload_buffer (bytes : list byte) (st : proxy) :
  payload_buffer_ (set_payload_buffer bytes st) = bytes.
Proof. reflexivity. Qed.

Lemma trace_set_heading_buffer (bytes : list byte) (st : proxy) :
  trace (set_heading_buffer bytes st) = trace st.
Proof. reflexivity. Qed.

Lemma stopped_set_heading_buffer (bytes : list byte) (st : proxy) :
  stopped (set_heading_buffer bytes st) = stopped st.
Proof. reflexivity. Qed.

Lemma magic_set_heading_buffer (bytes : list byte) (st : proxy) :
  magic_ (set_heading_buffer bytes st) = magic_ st.
Proof. reflexivity. Qed.

Lemma heading_buffer_set_heading_buffer (bytes : list byte) (st : proxy) :
  heading_buffer_ (set_heading_buffer bytes st) = bytes.
Proof. reflexivity. Qed.

#[local] Hint Rewrite trace_set_payload_buffer stopped_set_payload_buffer
  magic_set_payload_buffer payload_buffer_set_payload_buffer
  trace_set_heading_buffer stopped_set_heading_buffer
  magic_set_heading_buffer heading_buffer_set_heading_buffer
  : proxy_fields.

Lemma length_resize (n : nat) (buffer : list byte) :
  length (resize n buffer) = n.
Proof.
  unfold resize. rewrite length_app, length_firstn, repeat_length. lia.
Qed.

Lemma magic_stop (ec : code) (st : proxy) : magic_ (stop ec st) = magic_ st.
Proof.
  destruct (stopped st) eqn:Hs.
  - now rewrite stop_stopped.
  - now apply stop_running.
Qed.

Section ReadCycle.

Context {C : collaborators}.

(** [read_payload] on a running proxy. *)
Lemma read_payload_running (head : heading) (st : proxy) :
  stopped st = false ->
  stopped (read_payload head st) = false
  /\ magic_ (read_payload head st) = magic_ st
  /\ trace (read_payload head st)
     = trace st ++ [async_read_payload (payload_size head)]
  /\ length (payload_buffer_ (read_payload head st))
     = N.to_nat (payload_size head).
Proof.
  intro Hrun. unfold read_payload. rewrite Hrun.
  autorewrite with proxy_fields. repeat split; try assumption.
  apply length_resize.
Qed.

(** X1. A completed heading read on a running channel leads to the
    payload read exactly when the read succeeded, the heading parses, it
    bears the channel's magic and its payload size is at most
    [max_payload_size] (zero included): the payload buffer then has the
    announced size and a read of that size is initiated.  In every other
    case the channel stops, relaying the mapped transport code when the
    read failed and [bad_stream] otherwise; nothing is read and the
    payload buffer is left as it was. *)
Theorem heading_accepted_iff (ec : boost_code) (st : proxy) :
  stopped st = false ->
  stopped (handle_read_heading ec st) = negb (heading_accepted ec st)
  /\ (heading_accepted ec st = true ->
      exists head,
        heading_from_data (heading_buffer_ st) = Some head
        /\ trace (handle_read_heading ec st)
           = trace st ++ [async_read_payload (payload_size head); activity]
        /\ length (payload_buffer_ (handle_read_heading ec st))
           = N.to_nat (payload_size head))
  /\ (heading_accepted ec st = false ->
      trace (handle_read_heading ec st)
      = trace st
        ++ log (if boost_failed ec then debug else warning)
           :: stop_events (if boost_failed ec
                           then boost_to_error_code ec else bad_stream)
      /\ payload_buffer_ (handle_read_heading ec st) = payload_buffer_ st).
Proof.
  intro Hrun.
  assert (Hreject : forall level code0,
             stopped (stop code0 (emit (log level) st)) = true
             /\ trace (stop code0 (emit (log level) st))
                = trace st ++ log level :: stop_events code0
             /\ payload_buffer_ (stop code0 (emit (log level) st))
                = payload_buffer_ st).
  { intros level code0.
    assert (Hrun' : stopped (emit (log level) st) = false) by exact Hrun.
    destruct (stop_running code0 _ Hrun') as (Hs & Ht & Hp & _).
    repeat split; [exact Hs | | exact Hp].
    rewrite Ht, trace_emit, <- app_assoc. reflexivity. }
  unfold handle_read_heading, heading_accepted, stop_boost. rewrite Hrun.
  destruct (boost_failed ec); cbn [negb andb].
  { destruct (Hreject debug (boost_to_error_code ec)) as (Hs & Ht & Hp).
    split; [exact Hs|]. split; [discriminate|]. intros _. now split. }
  destruct (heading_from_data (heading_buffer_ st)) as [head|].
  2:{ destruct (Hreject warning bad_stream) as (Hs & Ht & Hp).
      split; [exact Hs|]. split; [discriminate|]. intros _. now split. }
  destruct (magic head =? magic_ st)%N; cbn [negb andb].
  2:{ destruct (Hreject warning bad_stream) as (Hs & Ht & Hp).
      split; [exact Hs|]. split; [discriminate|]. intros _. now split. }
  rewrite N.ltb_antisym.
  destruct (payload_size head <=? max_payload_size)%N; cbn [negb].
  - destruct (read_payload_running head st Hrun) as (Hs & _ & Ht & Hl).
    split; [exact Hs|]. split; [|discriminate].
    intros _. exists head. split; [reflexivity|].
    rewrite trace_emit, payload_buffer_emit, Ht, <- app_assoc.
    now split.
  - destruct (Hreject warning bad_stream) as (Hs & Ht & Hp).
    split; [exact Hs|]. split; [discriminate|]. intros _. now split.
Qed.

Lemma deliveries_emit (e : event) (st : proxy) :
  is_delivery e = false ->
  filter is_delivery (trace (emit e st)) = filter is_delivery (trace st).
Proof.
  intro He. rewrite trace_emit, filter_app. cbn [filter]. rewrite He.
  apply app_nil_r.
Qed.

Lemma deliveries_stop (ec : code) (st : proxy) :
  filter is_delivery (trace (stop ec st)) = filter is_delivery (trace st).
Proof.
  destruct (stopped st) eqn:Hs.
  - now rewrite stop_stopped.
  - destruct (stop_running ec st Hs) as (_ & Ht & _).
    rewrite Ht, filter_app. cbn. apply app_nil_r.
Qed.

Lemma deliveries_read_heading (st : proxy) :
  filter is_delivery (trace (read_heading st))
  = filter is_delivery (trace st).
Proof.
  unfold read_heading. destruct (stopped st); [reflexivity|].
  now apply deliveries_emit.
Qed.

(** X2. [handle_read_payload] loads the payload for the message
    subscribers exactly when the channel is running and the payload's
    checksum is the one of the heading: a payload with another checksum is
    never loaded, and one with the right checksum is loaded also when the
    read reported a transport error or the payload then fails to parse. *)
Theorem loaded_iff_checksum (ec : boost_code) (head : heading)
  (st : proxy) :
  filter is_delivery (trace (handle_read_payload ec head st))
  = filter is_delivery (trace st)
    ++ (if negb (stopped st)
           && (checksum head =? bitcoin_checksum (payload_buffer_ st))%N
        then [message_subscriber_load head (payload_buffer_ st)]
        else []).
Proof.
  destruct (stopped st) eqn:Hs.
  - rewrite handle_read_payload_stopped by exact Hs. cbn [negb andb].
    now rewrite app_nil_r.
  - rewrite handle_read_payload_running by exact Hs. cbn [negb andb].
    destruct (checksum head =? bitcoin_checksum (payload_buffer_ st))%N;
      cbn [negb].
    + cbv zeta.
      set (loaded :=
             emit (message_subscriber_load head (payload_buffer_ st)) st).
      assert (Hloaded : filter is_delivery (trace loaded)
                        = filter is_delivery (trace st)
                          ++ [message_subscriber_load head
                                (payload_buffer_ st)]).
      { unfold loaded. rewrite trace_emit, filter_app. reflexivity. }
      destruct (load_stops head (payload_buffer_ st)) as [reason|].
      { now rewrite deliveries_stop. }
      set (noted :=
             if negb (is_error (fst (load_result head (payload_buffer_ st))))
             then emit (log (if snd (load_result head (payload_buffer_ st))
                             then warning else debug)) loaded
             else loaded).
      assert (Hnoted : filter is_delivery (trace noted)
                       = filter is_delivery (trace loaded)).
      { unfold noted.
        destruct (is_error (fst (load_result head (payload_buffer_ st))));
          cbn [negb]; [reflexivity|].
        now apply deliveries_emit. }
      destruct (boost_failed ec).
      * unfold stop_boost.
        now rewrite deliveries_stop, deliveries_emit, Hnoted by reflexivity.
      * rewrite deliveries_read_heading, deliveries_emit by reflexivity.
        destruct (is_error (fst (load_result head (payload_buffer_ st)))).
        -- now rewrite deliveries_stop, deliveries_emit, Hnoted
             by reflexivity.
        -- now rewrite Hnoted.
    + rewrite deliveries_stop, deliveries_emit by reflexivity.
      now rewrite app_nil_r.
Qed.

(** One valid frame on a running channel, no subscriber stopping the
    channel while it is loaded. *)
Lemma receive_valid (f : frame) (st : proxy) :
  stopped st = false ->
  valid_frame (magic_ st) f = true ->
  quiet_load f = true ->
  stopped (receive f st) = false
  /\ magic_ (receive f st) = magic_ st
  /\ filter is_delivery (trace (receive f st))
     = filter is_delivery (trace st) ++ frame_load f
  /\ count is_read (receive f st) = 2 + count is_read st
  /\ last (trace (receive f st)) activity = async_read_heading.
Proof.
  intros Hrun Hvalid Hquiet. unfold valid_frame in Hvalid.
  unfold quiet_load in Hquiet. unfold receive, frame_load.
  destruct (heading_from_data (frame_heading f)) as [head|] eqn:Hparse;
    [|discriminate].
  apply andb_true_iff in Hvalid as [Hvalid Hparsed].
  apply andb_true_iff in Hvalid as [Hvalid Hsum].
  apply andb_true_iff in Hvalid as [Hvalid _].
  apply andb_true_iff in Hvalid as [Hmagic Hsize].
  apply negb_true_iff in Hparsed.
  set (payload := frame_payload f) in *.
  destruct (load_stops head payload) as [reason|] eqn:Hstops;
    [discriminate|].
  set (st2 :=
         set_payload_buffer payload
           (handle_read_heading 0
              (set_heading_buffer (frame_heading f) st))).
  assert (Hst2 : stopped st2 = false
                 /\ magic_ st2 = magic_ st
                 /\ payload_buffer_ st2 = payload
                 /\ trace st2
                    = trace st
                      ++ [async_read_payload (payload_size head); activity]).
  { unfold st2, handle_read_heading.
    autorewrite with proxy_fields. rewrite Hrun, Hparse, Hmagic.
    cbn [boost_failed Nat.eqb negb]. rewrite N.ltb_antisym, Hsize.
    cbn [negb].
    destruct (read_payload_running head
                (set_heading_buffer (frame_heading f) st) Hrun)
      as (Hs & Hm & Ht & _).
    autorewrite with proxy_fields. rewrite Hs, Hm, Ht.
    autorewrite with proxy_fields. rewrite <- app_assoc.
    repeat split. }
  destruct Hst2 as (Hrun2 & Hm2 & Hp2 & Ht2). clearbody st2.
  rewrite (handle_read_payload_running 0 head st2 Hrun2).
  rewrite Hp2, Hsum, Hstops. cbn [negb]. cbv zeta. rewrite Hparsed.
  cbn [negb boost_failed Nat.eqb].
  unfold read_heading, count. autorewrite with proxy_fields.
  rewrite Hrun2. autorewrite with proxy_fields. rewrite Hm2, Ht2.
  repeat split.
  - exact Hrun2.
  - rewrite !filter_app. cbn. now rewrite !app_nil_r.
  - rewrite !filter_app, !length_app. cbn. lia.
  - now rewrite last_last.
Qed.

(** X3. A run of valid frames on a running channel, of which no message
    subscriber stops the channel while a payload is loaded: the channel
    stays running, the payloads are loaded for the message subscribers one
    per frame and in the order of arrival and nothing else is loaded, two
    reads are initiated per frame, and after the last frame the next
    heading read is outstanding. *)
Theorem valid_frames_loaded_in_order (frames : list frame) (st : proxy) :
  stopped st = false ->
  forallb (valid_frame (magic_ st)) frames = true ->
  forallb quiet_load frames = true ->
  stopped (receive_all frames st) = false
  /\ filter is_delivery (trace (receive_all frames st))
     = filter is_delivery (trace st) ++ flat_map frame_load frames
  /\ count is_read (receive_all frames st)
     = 2 * length frames + count is_read st
  /\ (frames <> [] ->
      last (trace (receive_all frames st)) activity = async_read_heading).
Proof.
  revert st. induction frames as [|f rest IH]; intros st Hrun Hvalid Hquiet.
  - cbn. rewrite app_nil_r. repeat split; [exact Hrun | congruence].
  - cbn [forallb] in Hvalid, Hquiet.
    apply andb_true_iff in Hvalid as [Hf Hrest].
    apply andb_true_iff in Hquiet as [Hq Hqrest].
    destruct (receive_valid f st Hrun Hf Hq) as (Hs & Hm & Hd & Hr & Hlast).
    rewrite <- Hm in Hrest.
    destruct (IH (receive f st) Hs Hrest Hqrest)
      as (Hs' & Hd' & Hr' & Hlast').
    unfold receive_all in *. cbn [fold_left flat_map length].
    repeat split.
    + exact Hs'.
    + rewrite Hd', Hd, <- app_assoc. reflexivity.
    + rewrite Hr', Hr. lia.
    + intros _. destruct rest as [|g rest'].
      * exact Hlast.
      * apply Hlast'. discriminate.
Qed.

Lemma reported_codes_app (a b : list event) :
  reported (a ++ b) = reported a ++ reported b.
Proof.
  induction a as [|e rest IH]; [reflexivity|].
  destruct e; cbn [app reported]; rewrite IH; reflexivity.
Qed.

(** X4. Every send reports once.  [do_send] on a stopped channel invokes
    the handler with [channel_stopped] and writes nothing; on a running
    channel it hands exactly the message to the socket and leaves the
    handler to the completion of the write.  [handle_send] then invokes
    the handler once with the mapped result of the write, whether or not
    the channel has been stopped in the meantime, and writes nothing. *)
Theorem send_reports_once (message command : list byte) (st : proxy) :
  reported (trace (do_send message recording_handler command st))
  = reported (trace st) ++ (if stopped st then [channel_stopped] else [])
  /\ filter is_write
       (trace (do_send message recording_handler command st))
     = filter is_write (trace st)
       ++ (if stopped st then [] else [async_write message])
  /\ (forall (ec : boost_code) (st' : proxy),
        reported (trace (handle_send ec recording_handler st'))
        = reported (trace st') ++ [boost_to_error_code ec]
        /\ filter is_write (trace (handle_send ec recording_handler st'))
           = filter is_write (trace st')
        /\ stopped (handle_send ec recording_handler st') = stopped st').
Proof.
  repeat split.
  - unfold do_send, recording_handler. destruct (stopped st).
    + now rewrite trace_emit, reported_codes_app.
    + rewrite !trace_emit, !reported_codes_app. cbn. now rewrite !app_nil_r.
  - unfold do_send, recording_handler. destruct (stopped st).
    + rewrite trace_emit, filter_app. cbn. now rewrite app_nil_r.
    + rewrite !trace_emit, !filter_app. cbn. now rewrite app_nil_r.
  - unfold handle_send, recording_handler.
    destruct (is_error (boost_to_error_code ec));
      rewrite !trace_emit, !reported_codes_app; cbn; now rewrite ?app_nil_r.
  - unfold handle_send, recording_handler.
    destruct (is_error (boost_to_error_code ec));
      rewrite !trace_emit, !filter_app; cbn; now rewrite !app_nil_r.
  - unfold handle_send, recording_handler.
    destruct (is_error (boost_to_error_code ec)); reflexivity.
Qed.

(** How [active_periods] reads a trace that was extended. *)
Lemma active_periods_app (open : bool) (a b : list event) :
  active_periods open (a ++ b)
  = match active_periods open a with
    | Some open' => active_periods open' b
    | None => None
    end.
Proof.
  revert open. induction a as [|e rest IH]; intro open; [reflexivity|].
  destruct e, open; cbn; try apply IH; reflexivity.
Qed.

(** The invariant of a proxy's life: the periods of its trace are well
    formed and one is open exactly when the proxy is running. *)
Lemma periods_emit (e : event) (st : proxy) :
  active_periods (negb (stopped st)) [e] = Some (negb (stopped st)) ->
  active_periods false (trace st) = Some (negb (stopped st)) ->
  active_periods false (trace (emit e st))
  = Some (negb (stopped (emit e st))).
Proof.
  intros He Hst. now rewrite trace_emit, stopped_emit, active_periods_app, Hst.
Qed.

Lemma periods_stop (ec : code) (st : proxy) :
  active_periods false (trace st) = Some (negb (stopped st)) ->
  active_periods false (trace (stop ec st))
  = Some (negb (stopped (stop ec st))).
Proof.
  intro Hst. destruct (stopped st) eqn:Hs.
  - rewrite stop_stopped by exact Hs. now rewrite Hs.
  - destruct (stop_running ec st Hs) as (Hs' & Ht & _).
    rewrite Hs', Ht, active_periods_app, Hst. reflexivity.
Qed.

Lemma periods_read_heading (st : proxy) :
  active_periods false (trace st) = Some (negb (stopped st)) ->
  active_periods false (trace (read_heading st))
  = Some (negb (stopped (read_heading st))).
Proof.
  intro Hst. unfold read_heading. destruct (stopped st) eqn:Hs.
  - now rewrite Hs.
  - apply periods_emit; now rewrite Hs.
Qed.

Lemma periods_read_payload (head : heading) (st : proxy) :
  active_periods false (trace st) = Some (negb (stopped st)) ->
  active_periods false (trace (read_payload head st))
  = Some (negb (stopped (read_payload head st))).
Proof.
  intro Hst. unfold read_payload. destruct (stopped st) eqn:Hs.
  - now rewrite Hs.
  - apply periods_emit; autorewrite with proxy_fields; now rewrite Hs.
Qed.

Lemma periods_handle_read_heading (ec : boost_code) (st : proxy) :
  active_periods false (trace st) = Some (negb (stopped st)) ->
  active_periods false (trace (handle_read_heading ec st))
  = Some (negb (stopped (handle_read_heading ec st))).
Proof.
  intro Hst. unfold handle_read_heading, stop_boost.
  destruct (stopped st) eqn:Hs; [now rewrite Hs|].
  assert (Hlog : forall level,
             active_periods false (trace (emit (log level) st))
             = Some (negb (stopped (emit (log level) st)))).
  { intro level. apply periods_emit; now rewrite Hs. }
  destruct (boost_failed ec); [now apply periods_stop|].
  destruct (heading_from_data (heading_buffer_ st)) as [head|];
    [|now apply periods_stop].
  destruct (negb (magic head =? magic_ st)%N); [now apply periods_stop|].
  destruct (max_payload_size <? payload_size head)%N;
    [now apply periods_stop|].
  apply periods_emit; [reflexivity|].
  apply periods_read_payload. now rewrite Hs.
Qed.

Lemma periods_handle_read_payload (ec : boost_code) (head : heading)
  (st : proxy) :
  active_periods false (trace st) = Some (negb (stopped st)) ->
  active_periods false (trace (handle_read_payload ec head st))
  = Some (negb (stopped (handle_read_payload ec head st))).
Proof.
  intro Hst. destruct (stopped st) eqn:Hs.
  - rewrite handle_read_payload_stopped by exact Hs. now rewrite Hs.
  - rewrite handle_read_payload_running by exact Hs.
    destruct (negb (checksum head =? bitcoin_checksum (payload_buffer_ st))%N).
    + apply periods_stop. apply periods_emit; now rewrite Hs.
    + cbv zeta.
      set (loaded :=
             emit (message_subscriber_load head (payload_buffer_ st)) st).
      assert (Hloaded : active_periods false (trace loaded)
                        = Some (negb (stopped loaded))).
      { apply periods_emit; now rewrite Hs. }
      destruct (load_stops head (payload_buffer_ st)) as [reason|].
      { now apply periods_stop. }
      set (noted :=
             if negb (is_error (fst (load_result head (payload_buffer_ st))))
             then emit (log (if snd (load_result head (payload_buffer_ st))
                             then warning else debug)) loaded
             else loaded).
      assert (Hnoted : active_periods false (trace noted)
                       = Some (negb (stopped noted))).
      { unfold noted.
        destruct (is_error (fst (load_result head (payload_buffer_ st))));
          cbn [negb]; [exact Hloaded|].
        apply periods_emit; [reflexivity | exact Hloaded]. }
      destruct (boost_failed ec).
      * unfold stop_boost. apply periods_stop.
        apply periods_emit; [reflexivity | exact Hnoted].
      * apply periods_read_heading. apply periods_emit; [reflexivity|].
        destruct (is_error (fst (load_result head (payload_buffer_ st)))).
        -- apply periods_stop.
           apply periods_emit; [reflexivity | exact Hnoted].
        -- exact Hnoted.
Qed.

Lemma periods_start (st : proxy) :
  active_periods false (trace st) = Some (negb (stopped st)) ->
  active_periods false (trace (start recording_handler st))
  = Some (negb (stopped (start recording_handler st))).
Proof.
  intro Hst. unfold start, recording_handler.
  destruct (stopped st) eqn:Hs; cbn [negb].
  - apply periods_read_heading. apply periods_emit; [reflexivity|].
    rewrite !trace_emit, trace_set_stopped, !active_periods_app, Hst.
    reflexivity.
  - apply periods_emit; now rewrite Hs.
Qed.

Lemma periods_perform (c : call) (st : proxy) :
  active_periods false (trace st) = Some (negb (stopped st)) ->
  active_periods false (trace (perform c st))
  = Some (negb (stopped (perform c st))).
Proof.
  intro Hst. destruct c; cbn [perform].
  - unfold do_send, recording_handler. destruct (stopped st) eqn:Hs.
    + apply periods_emit; now rewrite Hs.
    + apply periods_emit; [now rewrite stopped_emit, Hs|].
      apply periods_emit; now rewrite Hs.
  - unfold handle_send, recording_handler.
    destruct (is_error (boost_to_error_code ec)).
    + apply periods_emit; [reflexivity|]. now apply periods_emit.
    + now apply periods_emit.
  - now apply periods_read_heading.
  - now apply periods_handle_read_heading.
  - now apply periods_read_payload.
  - now apply periods_handle_read_payload.
  - now apply periods_stop.
  - unfold subscribe_stop. now apply periods_emit.
Qed.

(** X5. Over the whole life of a proxy, restarts included: whatever
    starts, stops, sends, completions and read-cycle entries reach a
    proxy after its construction, starts and stops take effect in strict
    alternation, and every socket read, socket write and load of a payload
    lies between a start and the stop that follows it; the proxy is
    running at the end exactly when the last start has not been followed
    by a stop. *)
Theorem io_only_between_start_and_stop (magic : N)
  (calls : list life_call) :
  active_periods false (trace (life_perform_all calls (create magic)))
  = Some (negb (stopped (life_perform_all calls (create magic)))).
Proof.
  assert (Hstep : forall cs st,
             active_periods false (trace st) = Some (negb (stopped st)) ->
             active_periods false (trace (life_perform_all cs st))
             = Some (negb (stopped (life_perform_all cs st)))).
  { induction cs as [|c rest IH]; intros st Hst; [exact Hst|].
    unfold life_perform_all in *. cbn [fold_left]. apply IH.
    destruct c; cbn [life_perform].
    - now apply periods_start.
    - now apply periods_perform. }
  apply Hstep. reflexivity.
Qed.

End ReadCycle.

Lemma heading_accepted_iff_witness :
  stopped (set_heading_buffer largest_heading sample_running) = false
  /\ heading_accepted (H := sample_collaborators) 0
       (set_heading_buffer largest_heading sample_running) = true
  /\ stopped (handle_read_heading (H := sample_collaborators) 0
                (set_heading_buffer largest_heading sample_running))
     = negb (heading_accepted (H := sample_collaborators) 0
               (set_heading_buffer largest_heading sample_running))
  /\ heading_accepted (H := sample_collaborators) 0
       (set_heading_buffer oversized_heading sample_running) = false
  /\ stopped (handle_read_heading (H := sample_collaborators) 0
                (set_heading_buffer oversized_heading sample_running))
     = negb (heading_accepted (H := sample_collaborators) 0
               (set_heading_buffer oversized_heading sample_running)).
Proof.
  split; [reflexivity|]. split; [reflexivity|]. split; [|split].
  - apply (@heading_accepted_iff sample_collaborators 0
             (set_heading_buffer largest_heading sample_running)).
    reflexivity.
  - reflexivity.
  - apply (@heading_accepted_iff sample_collaborators 0
             (set_heading_buffer oversized_heading sample_running)).
    reflexivity.
Defined.

Lemma valid_frames_loaded_in_order_witness :
  stopped sample_running = false
  /\ forallb (valid_frame (H := sample_collaborators)
                (magic_ sample_running)) ping_frames = true
  /\ forallb (quiet_load (H := sample_collaborators)) ping_frames = true
  /\ filter is_delivery
       (trace (receive_all (H := sample_collaborators) ping_frames
                 sample_running))
     = filter is_delivery (trace sample_running)
       ++ flat_map (frame_load (H := sample_collaborators)) ping_frames.
Proof.
  split; [reflexivity|]. split; [reflexivity|]. split; [reflexivity|].
  apply (@valid_frames_loaded_in_order sample_collaborators ping_frames
           sample_running); reflexivity.
Defined.

(** Two pings on a started channel, as the trace has them. *)
Example two_pings :
  trace (receive_all (H := sample_collaborators) ping_frames sample_running)
  = [stop_subscriber_start; message_subscriber_start;
     handler_invoked success; async_read_heading;
     async_read_payload 8; activity;
     message_subscriber_load
       {| magic := sample_magic; command := ping_command;
          payload_size := 8; checksum := 1 |}
       [x01; x00; x00; x00; x00; x00; x00; x00];
     log debug; activity; async_read_heading;
     async_read_payload 8; activity;
     message_subscriber_load
       {| magic := sample_magic; command := ping_command;
          payload_size := 8; checksum := 2 |}
       [x02; x00; x00; x00; x00; x00; x00; x00];
     log debug; activity; async_read_heading].
Proof. reflexivity. Qed.

End ProxyFacts.

(* ===================================================================== *)
(** ** Properties of the peer session manager                             *)
(* ===================================================================== *)

Module P2PFacts.
Import P2P.

Lemma is_error_true (ec : code) : is_error ec = true <-> ec <> success.
Proof. destruct ec; simpl; split; congruence. Qed.

Section WithCollaborators.

Context {C : collaborators}.

Lemma stop_unfold (handler : result_handler) (st : p2p) :
  stop handler st = handler (stop_code st) (stop_done st).
Proof.
  unfold stop, stop_done, stop_events, stop_code, shut, stopped, emit,
    store_manual, set_stopped.
  destruct st as [s m t]. cbn [stopped_ manual_ trace].
  destruct s; [cbn [is_error] | destruct (is_error _)];
    cbn [stopped_ manual_ trace]; rewrite <- ?app_assoc; reflexivity.
Qed.

Lemma reported_app (a b : list event) :
  reported (a ++ b) = reported a ++ reported b.
Proof.
  induction a as [|e rest IH]; [reflexivity|].
  destruct e; cbn [app reported]; rewrite IH; reflexivity.
Qed.

Lemma saves_app (a b : list event) : saves (a ++ b) = saves a + saves b.
Proof. unfold saves. now rewrite filter_app, length_app. Qed.

Lemma reported_stop_events (st : p2p) : reported (stop_events st) = [].
Proof.
  unfold stop_events. destruct (stopped st), (is_error (stop_code st));
    reflexivity.
Qed.

Lemma saves_stop_events (st : p2p) :
  saves (stop_events st) = if stopped st then 0 else 1.
Proof.
  unfold stop_events. destruct (stopped st), (is_error (stop_code st));
    reflexivity.
Qed.

(** Consecutive stops of a stopped manager report [success] and save
    nothing. *)
Lemma stop_repeatedly_stopped (n : nat) (st : p2p) :
  stopped st = true ->
  reported (trace (stop_repeatedly n st))
  = reported (trace st) ++ repeat success n
  /\ saves (trace (stop_repeatedly n st)) = saves (trace st).
Proof.
  revert st. induction n as [|k IH]; intros st Hst.
  - cbn. now rewrite app_nil_r.
  - cbn [stop_repeatedly repeat]. rewrite stop_unfold.
    unfold recording_handler.
    destruct (IH (emit (handler_invoked (stop_code st)) (stop_done st))
                eq_refl) as [Hr Hs].
    rewrite Hr, Hs. cbn [emit trace stop_done].
    rewrite !reported_app, !saves_app, reported_stop_events,
      saves_stop_events.
    unfold stop_code. rewrite Hst. cbn. rewrite app_nil_r, <- app_assoc.
    split; [reflexivity | lia].
Qed.

(** C9. [stop] is idempotent.  Every call ends by invoking its handler,
    once, on a stopped manager; the host store is saved only when the
    manager was not already stopped, and then the handler gets the result
    of the save; of any number of consecutive calls the first reports that
    code and all later ones report [success], with no further save. *)
Theorem stop_idempotent (st : p2p) :
  (forall handler,
      stop handler st = handler (stop_code st) (stop_done st))
  /\ stopped (stop_done st) = true
  /\ stop_code st
     = (if stopped st then success else hosts_save_result (shut st))
  /\ saves (trace (stop_done st))
     = saves (trace st) + (if stopped st then 0 else 1)
  /\ (forall n,
        reported (trace (stop_repeatedly (S n) st))
        = reported (trace st) ++ stop_code st :: repeat success n)
  /\ (forall n,
        saves (trace (stop_repeatedly (S n) st))
        = saves (trace st) + (if stopped st then 0 else 1)).
Proof.
  assert (Hrest : forall n,
             reported (trace (stop_repeatedly (S n) st))
             = reported (trace st) ++ stop_code st :: repeat success n
             /\ saves (trace (stop_repeatedly (S n) st))
                = saves (trace st) + (if stopped st then 0 else 1)).
  { intro n. cbn [stop_repeatedly]. rewrite stop_unfold.
    unfold recording_handler.
    destruct (stop_repeatedly_stopped n
                (emit (handler_invoked (stop_code st)) (stop_done st))
                eq_refl) as [Hr Hs].
    rewrite Hr, Hs. cbn [emit trace stop_done].
    rewrite !reported_app, !saves_app, reported_stop_events,
      saves_stop_events.
    cbn. rewrite app_nil_r, <- app_assoc. split; [reflexivity | lia]. }
  repeat split.
  - intro handler. apply stop_unfold.
  - cbn [stop_done trace]. now rewrite saves_app, saves_stop_events.
  - intro n. apply Hrest.
  - intro n. apply Hrest.
Qed.

Lemma started_running (st : p2p) :
  stopped (started st) = false
  /\ manual_ (started st) = true
  /\ trace (started st)
     = trace st ++ [subscriber_start; threadpool_join;
                    threadpool_spawn threads;
                    session_attach manual; session_start manual].
Proof.
  unfold started, stopped, emit, store_manual, set_stopped.
  cbn [stopped_ manual_ trace]. repeat split. now rewrite <- !app_assoc.
Qed.

(** The start sequence of a stopped manager, flattened: the handler is
    invoked once, by the first step that fails or finds the manager
    stopped, and with [success] when there is none. *)
Lemma start_stopped_unfold (handler : result_handler) (st : p2p) :
  stopped st = true ->
  start handler st
  = if stopped (manual_done st)
    then handler service_stopped (manual_done st)
    else if is_error (session_result manual (manual_done st))
    then handler (session_result manual (manual_done st))
           (emit log_error (manual_done st))
    else if is_error (hosts_load_result (manual_done st))
    then handler (hosts_load_result (manual_done st))
           (emit log_error (hosts_loaded st))
    else if stopped (seed_done st)
    then handler service_stopped (seed_done st)
    else if is_error (session_result seed (seed_done st))
    then handler (session_result seed (seed_done st))
           (emit log_error (seed_done st))
    else handler success (seed_done st).
Proof.
  intro Hst. unfold start. rewrite Hst. cbn [negb]. cbv zeta.
  fold (started st). unfold complete. fold (manual_done st).
  unfold handle_manual_started.
  destruct (stopped (manual_done st)) eqn:Hm; [reflexivity|].
  destruct (is_error (session_result manual (manual_done st)));
    [reflexivity|].
  cbv zeta. fold (hosts_loaded st). unfold handle_hosts_loaded.
  assert (Hl : stopped (hosts_loaded st) = false) by exact Hm.
  rewrite Hl.
  destruct (is_error (hosts_load_result (manual_done st))); [reflexivity|].
  cbv zeta. unfold complete. fold (seed_done st).
  unfold handle_hosts_seeded.
  destruct (stopped (seed_done st)); [reflexivity|].
  destruct (is_error (session_result seed (seed_done st))); reflexivity.
Qed.

(** C8. [start] invokes the handler with [operation_failed] and does
    nothing else when the manager is not stopped.  Otherwise it clears
    [stopped], starts the subscriber and the thread pool and then, in this
    order, starts the manual session, loads the host store and starts the
    seed session, and at the end invokes the handler with [success]; the
    first step that reports an error, or that finds the manager stopped
    again, passes that error (respectively [service_stopped]) to the
    handler and nothing of the chain follows. *)
Theorem start_chain (handler : result_handler) (st : p2p) :
  (stopped st = false -> start handler st = handler operation_failed st)
  /\ (stopped st = true ->
      stopped (started st) = false
      /\ trace (started st)
         = trace st ++ [subscriber_start; threadpool_join;
                        threadpool_spawn threads;
                        session_attach manual; session_start manual]
      /\ (stopped (manual_done st) = true ->
          start handler st = handler service_stopped (manual_done st))
      /\ (stopped (manual_done st) = false ->
          (session_result manual (manual_done st) <> success ->
           start handler st
           = handler (session_result manual (manual_done st))
               (emit log_error (manual_done st)))
          /\ (session_result manual (manual_done st) = success ->
              trace (hosts_loaded st)
              = trace (manual_done st) ++ [hosts_load]
              /\ (hosts_load_result (manual_done st) <> success ->
                  start handler st
                  = handler (hosts_load_result (manual_done st))
                      (emit log_error (hosts_loaded st)))
              /\ (hosts_load_result (manual_done st) = success ->
                  seed_done st
                  = session_meanwhile seed
                      (emit (session_start seed)
                         (emit (session_attach seed) (hosts_loaded st)))
                  /\ (stopped (seed_done st) = true ->
                      start handler st
                      = handler service_stopped (seed_done st))
                  /\ (stopped (seed_done st) = false ->
                      (session_result seed (seed_done st) <> success ->
                       start handler st
                       = handler (session_result seed (seed_done st))
                           (emit log_error (seed_done st)))
                      /\ (session_result seed (seed_done st) = success ->
                          start handler st
                          = handler success (seed_done st)))))))
  /\ ((forall kind s, session_meanwhile kind s = s) ->
      stopped st = true ->
      session_result manual (manual_done st) = success ->
      hosts_load_result (manual_done st) = success ->
      session_result seed (seed_done st) = success ->
      trace (start recording_handler st)
      = trace st ++ [subscriber_start; threadpool_join;
                     threadpool_spawn threads;
                     session_attach manual; session_start manual;
                     hosts_load;
                     session_attach seed; session_start seed;
                     handler_invoked success]).
Proof.
  split; [|split].
  - intro Hrun. unfold start. now rewrite Hrun.
  - intro Hst. pose proof (start_stopped_unfold handler st Hst) as Hflat.
    destruct (started_running st) as (Hs & _ & Ht).
    split; [exact Hs|]. split; [exact Ht|]. split.
    + intro Hm. now rewrite Hflat, Hm.
    + intro Hm. rewrite Hm in Hflat. split.
      * intro Herr. apply is_error_true in Herr. now rewrite Hflat, Herr.
      * intro Hok. rewrite Hok in Hflat. cbn [is_error] in Hflat.
        split; [reflexivity|]. split.
        -- intro Herr. apply is_error_true in Herr.
           now rewrite Hflat, Herr.
        -- intro Hload. rewrite Hload in Hflat. cbn [is_error] in Hflat.
           split; [reflexivity|]. split.
           ++ intro Hd. now rewrite Hflat, Hd.
           ++ intro Hd. rewrite Hd in Hflat. split.
              ** intro Herr. apply is_error_true in Herr.
                 now rewrite Hflat, Herr.
              ** intro Hseed. now rewrite Hflat, Hseed.
  - intros Hquiet Hst Hmanual Hload Hseed.
    rewrite (start_stopped_unfold recording_handler st Hst).
    assert (Hm : manual_done st = started st) by apply Hquiet.
    assert (Hd : seed_done st
                 = emit (session_start seed)
                     (emit (session_attach seed) (hosts_loaded st)))
      by apply Hquiet.
    destruct (started_running st) as (Hs & _ & Ht).
    rewrite Hmanual, Hload, Hseed. cbn [is_error].
    assert (Hm_run : stopped (manual_done st) = false) by now rewrite Hm.
    assert (Hd_run : stopped (seed_done st) = false).
    { rewrite Hd. exact Hm_run. }
    rewrite Hm_run, Hd_run. unfold recording_handler.
    rewrite Hd. unfold hosts_loaded. rewrite Hm.
    cbn [emit trace]. rewrite Ht. now rewrite <- !app_assoc.
Qed.

End WithCollaborators.

Lemma start_chain_witness :
  stopped create = true
  /\ trace (start (H := sample_collaborators) recording_handler create)
     = [subscriber_start; threadpool_join; threadpool_spawn 4;
        session_attach manual; session_start manual;
        hosts_load;
        session_attach seed; session_start seed;
        handler_invoked success]
  /\ hosts_load_result (collaborators := failing_load)
       (manual_done (H := failing_load) create) <> success
  /\ start (H := failing_load) recording_handler create
     = recording_handler file_system
         (emit log_error (hosts_loaded (H := failing_load) create))
  /\ stopped (seed_done (H := stopped_while_seeding) create) = true
  /\ start (H := stopped_while_seeding) recording_handler create
     = recording_handler service_stopped
         (seed_done (H := stopped_while_seeding) create).
Proof.
  split; [reflexivity|]. split; [|split; [discriminate|split; [|split]]].
  - destruct (@start_chain sample_collaborators recording_handler create)
      as (_ & _ & Hquiet).
    apply Hquiet; reflexivity.
  - destruct (@start_chain failing_load recording_handler create)
      as (_ & Hchain & _).
    destruct (Hchain eq_refl) as (_ & _ & _ & Hmanual).
    destruct (Hmanual eq_refl) as (_ & Hload).
    destruct (Hload eq_refl) as (_ & Hfail & _).
    apply Hfail. discriminate.
  - reflexivity.
  - destruct (@start_chain stopped_while_seeding recording_handler create)
      as (_ & Hchain & _).
    destruct (Hchain eq_refl) as (_ & _ & _ & Hmanual).
    destruct (Hmanual eq_refl) as (_ & Hload).
    destruct (Hload eq_refl) as (_ & _ & Hseed).
    destruct (Hseed eq_refl) as (_ & Hstopped & _).
    apply Hstopped. reflexivity.
Defined.

(** Start, then three stops in a row: the first saves the host store and
    reports the result of the save, the others report [success]. *)
Example stop_three_times :
  reported
    (trace
       (stop_repeatedly (H := sample_collaborators) 3
          (start (H := sample_collaborators) recording_handler create)))
  = [success; file_system; success; success]
  /\ saves
       (trace
          (stop_repeatedly (H := sample_collaborators) 3
             (start (H := sample_collaborators) recording_handler create)))
     = 1.
Proof. split; reflexivity. Qed.

(* --------------------------------------------------------------------- *)
(** *** Run, connect, close and the life of a manager                     *)
(* --------------------------------------------------------------------- *)

Section Life.

Context {C : collaborators}.

(** The run sequence, flattened. *)
Lemma run_unfold (handler : result_handler) (st : p2p) :
  run handler st
  = if is_error (session_result inbound (inbound_done st))
    then handler (session_result inbound (inbound_done st))
           (emit log_error (inbound_done st))
    else if is_error (session_result outbound (outbound_done st))
    then handler (session_result outbound (outbound_done st))
           (emit log_error (outbound_done st))
    else handler success (outbound_done st).
Proof.
  unfold run, complete. cbv zeta. fold (inbound_done st).
  unfold handle_inbound_started.
  destruct (is_error (session_result inbound (inbound_done st)));
    [reflexivity|].
  cbv zeta. unfold complete. fold (outbound_done st).
  unfold handle_outbound_started.
  destruct (is_error (session_result outbound (outbound_done st)));
    reflexivity.
Qed.

(** X6. [run] does not look at the stopped flag: on any manager, started
    or not, it attaches and starts the inbound session.  When that
    session reports an error the handler gets the error and the outbound
    session is never attached; otherwise the outbound session is attached
    and started and the handler gets its error or, at the end, [success].
    The handler is invoked once. *)
Theorem run_chain (st : p2p) :
  (forall kind s, session_meanwhile kind s = s) ->
  trace (run recording_handler st)
  = trace st
    ++ [session_attach inbound; session_start inbound]
    ++ (if is_error (session_result inbound (inbound_done st))
        then [log_error;
              handler_invoked (session_result inbound (inbound_done st))]
        else [session_attach outbound; session_start outbound]
             ++ (if is_error (session_result outbound (outbound_done st))
                 then [log_error;
                       handler_invoked
                         (session_result outbound (outbound_done st))]
                 else [handler_invoked success]))
  /\ stopped (run recording_handler st) = stopped st.
Proof.
  intro Hquiet. rewrite run_unfold.
  assert (Hin : inbound_done st
                = emit (session_start inbound)
                    (emit (session_attach inbound) st))
    by apply Hquiet.
  assert (Hout : outbound_done st
                 = emit (session_start outbound)
                     (emit (session_attach outbound) (inbound_done st)))
    by apply Hquiet.
  unfold recording_handler.
  destruct (is_error (session_result inbound (inbound_done st))).
  - rewrite Hin. cbn [emit trace stopped stopped_].
    rewrite <- !app_assoc. now split.
  - destruct (is_error (session_result outbound (outbound_done st)));
      rewrite Hout, Hin; cbn [emit trace stopped stopped_];
      rewrite <- !app_assoc; now split.
Qed.

Lemma starts_app (a b : list event) : starts (a ++ b) = starts a + starts b.
Proof. unfold starts. now rewrite filter_app, length_app. Qed.

Lemma balanced_emit (e : event) (st : p2p) :
  is_hosts_save e = false ->
  is_subscriber_start e = false ->
  balanced st -> balanced (emit e st).
Proof.
  intros Hsave Hstart [Hcount Hmanual]. unfold balanced.
  cbn [emit trace stopped stopped_ manual_].
  rewrite saves_app, starts_app. unfold saves, starts. cbn [filter].
  rewrite Hsave, Hstart. cbn [length]. split; [|exact Hmanual].
  unfold saves, starts, stopped in Hcount. lia.
Qed.

Lemma balanced_started (st : p2p) :
  stopped st = true -> balanced st -> balanced (started st).
Proof.
  intros Hst [Hcount _]. rewrite Hst in Hcount.
  destruct (started_running st) as (Hs & Hm & Ht).
  unfold balanced. rewrite Hs, Ht, saves_app, starts_app.
  split; [|intros _; exact Hm].
  change (saves [subscriber_start; threadpool_join;
                 threadpool_spawn threads;
                 session_attach manual; session_start manual]) with 0.
  change (starts [subscriber_start; threadpool_join;
                  threadpool_spawn threads;
                  session_attach manual; session_start manual]) with 1.
  lia.
Qed.

Lemma balanced_stop_done (st : p2p) : balanced st -> balanced (stop_done st).
Proof.
  intros [Hcount _]. unfold balanced, stop_done.
  cbn [trace stopped stopped_ manual_].
  rewrite saves_app, starts_app, saves_stop_events.
  split; [|discriminate].
  assert (Hnone : starts (stop_events st) = 0).
  { unfold stop_events.
    destruct (stopped st), (is_error (stop_code st)); reflexivity. }
  rewrite Hnone. destruct (stopped st) eqn:Hs; unfold stopped in *;
    rewrite ?Hs in Hcount; lia.
Qed.

Section Undisturbed.

(** What reaches the manager while a session starts keeps it balanced
    (nothing at all, for one, or calls of the manager itself). *)
Hypothesis meanwhile_balanced :
  forall kind st, balanced st -> balanced (session_meanwhile kind st).

Lemma balanced_api_perform (c : api_call) (st : p2p) :
  balanced st -> balanced (api_perform c st).
Proof.
  intro Hst. destruct c; cbn [api_perform].
  - destruct (stopped st) eqn:Hs.
    + rewrite (start_stopped_unfold recording_handler st Hs).
      assert (Hm : balanced (manual_done st)).
      { apply meanwhile_balanced. now apply balanced_started. }
      assert (Hl : balanced (hosts_loaded st)).
      { apply balanced_emit; [reflexivity | reflexivity | exact Hm]. }
      assert (Hd : balanced (seed_done st)).
      { apply meanwhile_balanced.
        apply balanced_emit; [reflexivity | reflexivity |].
        apply balanced_emit; [reflexivity | reflexivity | exact Hl]. }
      unfold recording_handler.
      repeat match goal with
             | |- balanced (if ?c then _ else _) => destruct c
             end;
        repeat (apply balanced_emit; [reflexivity | reflexivity |]);
        assumption.
    + unfold start. rewrite Hs. cbn [negb]. unfold recording_handler.
      now apply balanced_emit.
  - rewrite run_unfold.
    assert (Hin : balanced (inbound_done st)).
    { apply meanwhile_balanced.
      apply balanced_emit; [reflexivity | reflexivity |].
      now apply balanced_emit. }
    assert (Hout : balanced (outbound_done st)).
    { apply meanwhile_balanced.
      apply balanced_emit; [reflexivity | reflexivity |].
      now apply balanced_emit. }
    unfold recording_handler.
    repeat match goal with
           | |- balanced (if ?c then _ else _) => destruct c
           end;
      repeat (apply balanced_emit; [reflexivity | reflexivity |]);
      assumption.
  - rewrite stop_unfold. unfold recording_handler.
    apply balanced_emit; [reflexivity | reflexivity |].
    now apply balanced_stop_done.
  - unfold close. rewrite stop_unfold. unfold handle_stopped.
    apply balanced_emit; [reflexivity | reflexivity |].
    now apply balanced_stop_done.
Qed.

Lemma balanced_api_perform_all (calls : list api_call) (st : p2p) :
  balanced st -> balanced (api_perform_all calls st).
Proof.
  revert st. induction calls as [|c rest IH]; intros st Hst; [exact Hst|].
  unfold api_perform_all in *. cbn [fold_left]. apply IH.
  now apply balanced_api_perform.
Qed.

Lemma balanced_create : balanced create.
Proof. split; [reflexivity | discriminate]. Qed.

End Undisturbed.

(** X7. The host store is saved once per start.  Whatever starts, runs,
    stops and closes reach a manager after its construction, successful
    or not: the saves of the host store and the starts that took effect
    are equal in number while the manager is stopped, and the saves are
    one behind while it is running. *)
Theorem save_once_per_start (calls : list api_call) :
  (forall kind st, balanced st -> balanced (session_meanwhile kind st)) ->
  saves (trace (api_perform_all calls create))
  + (if stopped (api_perform_all calls create) then 0 else 1)
  = starts (trace (api_perform_all calls create)).
Proof.
  intro Hmeanwhile.
  apply (balanced_api_perform_all Hmeanwhile calls create balanced_create).
Qed.

(** X8. No call of [connect] is lost.  After any starts, runs, stops and
    closes, [connect] with a handler either invokes the handler with
    [service_stopped] and a null channel, when the manager is stopped, or
    hands the call to the manual session; [connect] without a handler
    does nothing on a stopped manager and hands the call to the manual
    session otherwise. *)
Theorem connect_is_never_lost (calls : list api_call)
  (hostname : list byte) (port : N) :
  (forall kind st, balanced st -> balanced (session_meanwhile kind st)) ->
  connect_with_handler hostname port (api_perform_all calls create)
  = (if stopped (api_perform_all calls create)
     then connect_refused service_stopped
     else connect_manual hostname port true)
  /\ connect hostname port (api_perform_all calls create)
     = (if stopped (api_perform_all calls create)
        then connect_nothing
        else connect_manual hostname port false).
Proof.
  intro Hmeanwhile.
  destruct (balanced_api_perform_all Hmeanwhile calls create balanced_create)
    as [_ Hmanual].
  unfold connect_with_handler, connect.
  destruct (stopped (api_perform_all calls create)); [now split|].
  rewrite Hmanual by reflexivity. now split.
Qed.

(** X9. A start of a stopped manager leaves it running whether the chain
    succeeds or not (so long as nothing stops it in the meantime): a second
    start, without a stop in between, does nothing but report
    [operation_failed], and after a stop the manager can be started
    again. *)
Theorem failed_start_must_be_stopped (st : p2p) :
  stopped st = true ->
  (forall kind s, stopped (session_meanwhile kind s) = stopped s) ->
  stopped (start recording_handler st) = false
  /\ (forall handler,
        start handler (start recording_handler st)
        = handler operation_failed (start recording_handler st))
  /\ stopped (stop recording_handler (start recording_handler st)) = true.
Proof.
  intros Hst Hkeeps.
  assert (Hrun : stopped (start recording_handler st) = false).
  { rewrite (start_stopped_unfold recording_handler st Hst).
    assert (Hm : stopped (manual_done st) = false).
    { unfold manual_done. rewrite Hkeeps. apply started_running. }
    assert (Hd : stopped (seed_done st) = false).
    { unfold seed_done. rewrite Hkeeps. exact Hm. }
    rewrite Hm, Hd. unfold recording_handler.
    repeat match goal with
           | |- stopped (if ?c then _ else _) = _ => destruct c
           end;
      cbn [emit stopped stopped_]; assumption. }
  split; [exact Hrun|]. split.
  - intro handler. unfold start at 1. now rewrite Hrun.
  - now rewrite stop_unfold.
Qed.

(** X10. [close], and with it the destructor, is a stop whose handler
    joins the thread pool: the manager ends stopped with the manual
    session dropped, no handler of a caller is invoked, the join comes
    last, and a close that follows a stop saves nothing again. *)
Theorem close_is_a_silent_stop (st : p2p) :
  trace (close st) = trace st ++ stop_events st ++ [threadpool_join]
  /\ stopped (close st) = true
  /\ manual_ (close st) = false
  /\ reported (trace (close st)) = reported (trace st)
  /\ saves (trace (close (stop recording_handler st)))
     = saves (trace (stop recording_handler st))
  /\ reported (trace (close (stop recording_handler st)))
     = reported (trace st) ++ [stop_code st].
Proof.
  assert (Hclose : forall s,
             trace (close s) = trace s ++ stop_events s ++ [threadpool_join]
             /\ stopped (close s) = true
             /\ manual_ (close s) = false).
  { intro s. unfold close. rewrite stop_unfold. unfold handle_stopped.
    cbn [emit stop_done trace stopped stopped_ manual_].
    rewrite <- app_assoc. repeat split. }
  assert (Hquiet : forall s, reported (trace (close s)) = reported (trace s)).
  { intro s. destruct (Hclose s) as (Ht & _). rewrite Ht.
    rewrite !reported_app, reported_stop_events. cbn.
    now rewrite app_nil_r. }
  destruct (Hclose st) as (Ht & Hs & Hm).
  split; [exact Ht|]. split; [exact Hs|]. split; [exact Hm|].
  split; [apply Hquiet|]. split.
  - destruct (Hclose (stop recording_handler st)) as (Ht' & _).
    rewrite Ht', !saves_app, saves_stop_events.
    rewrite stop_unfold. unfold recording_handler.
    cbn [emit stop_done stopped stopped_]. cbn. lia.
  - rewrite Hquiet, stop_unfold. unfold recording_handler.
    cbn [emit stop_done trace].
    rewrite !reported_app, reported_stop_events. cbn.
    now rewrite app_nil_r.
Qed.

End Life.

Lemma run_chain_witness :
  (forall kind s,
      session_meanwhile (collaborators := failing_inbound) kind s = s)
  /\ trace (run (H := failing_inbound) recording_handler create)
     = [session_attach inbound; session_start inbound;
        log_error; handler_invoked address_in_use]
  /\ stopped (run (H := failing_inbound) recording_handler create) = true.
Proof.
  assert (Hquiet : forall kind s,
             session_meanwhile (collaborators := failing_inbound) kind s = s)
    by reflexivity.
  split; [exact Hquiet|].
  apply (@run_chain failing_inbound create Hquiet).
Defined.

Lemma save_once_per_start_witness :
  (forall kind st,
      balanced st ->
      balanced (session_meanwhile (collaborators := failing_load) kind st))
  /\ saves (trace (api_perform_all (H := failing_load)
                     [api_start; api_start; api_stop; api_stop; api_close]
                     create))
     + (if stopped (api_perform_all (H := failing_load)
                      [api_start; api_start; api_stop; api_stop; api_close]
                      create)
        then 0 else 1)
     = starts (trace (api_perform_all (H := failing_load)
                        [api_start; api_start; api_stop; api_stop; api_close]
                        create)).
Proof.
  assert (Hmeanwhile :
            forall kind st,
              balanced st ->
              balanced
                (session_meanwhile (collaborators := failing_load) kind st))
    by (intros kind st Hst; exact Hst).
  split; [exact Hmeanwhile|].
  apply (@save_once_per_start failing_load
           [api_start; api_start; api_stop; api_stop; api_close]
           Hmeanwhile).
Defined.

Lemma connect_is_never_lost_witness :
  (forall kind st,
      balanced st ->
      balanced
        (session_meanwhile (collaborators := sample_collaborators) kind st))
  /\ connect_with_handler [x61] 8333
       (api_perform_all (H := sample_collaborators) [api_start; api_run]
          create)
     = (if stopped (api_perform_all (H := sample_collaborators)
                      [api_start; api_run] create)
        then connect_refused service_stopped
        else connect_manual [x61] 8333 true).
Proof.
  assert (Hmeanwhile :
            forall kind st,
              balanced st ->
              balanced
                (session_meanwhile (collaborators := sample_collaborators)
                   kind st))
    by (intros kind st Hst; exact Hst).
  split; [exact Hmeanwhile|].
  apply (@connect_is_never_lost sample_collaborators [api_start; api_run]
           [x61] 8333 Hmeanwhile).
Defined.

Lemma failed_start_must_be_stopped_witness :
  stopped create = true
  /\ (forall kind s,
         stopped (session_meanwhile (collaborators := failing_seed) kind s)
         = stopped s)
  /\ stopped (start (H := failing_seed) recording_handler create) = false.
Proof.
  assert (Hkeeps :
            forall kind s,
              stopped (session_meanwhile (collaborators := failing_seed)
                         kind s) = stopped s)
    by reflexivity.
  split; [reflexivity|]. split; [exact Hkeeps|].
  apply (@failed_start_must_be_stopped failing_seed create eq_refl Hkeeps).
Defined.

(** A start whose seeding fails, a second start, a stop and a close. *)
Example failed_start_then_retry :
  reported
    (trace
       (api_perform_all (H := failing_seed)
          [api_start; api_start; api_stop; api_close] create))
  = [bad_stream; operation_failed; success]
  /\ saves
       (trace
          (api_perform_all (H := failing_seed)
             [api_start; api_start; api_stop; api_close] create))
     = 1.
Proof. split; reflexivity. Qed.

End P2PFacts.
